(** * Blueprint-to-text serializer: a shallow embedding of
      [server/editor/scripts/ue_blueprint_to_text.py]

    The script walks host (editor) objects and builds a nested document of
    Python dicts, lists, strings and booleans.  Every host read may raise;
    the script wraps most of them in [try ... except Exception: pass].

    The embedding keeps three things as the code has them:
    - a host read is a value of [read A]: it returns ([Ok]) or raises
      ([Raise]);
    - a dict is an insertion-ordered association list, updated by key;
    - a [try] block that mutates a local object is a computation in a small
      state-and-exception monad [M], in which the mutations made before an
      exception survive it (as they do in Python). *)

From Stdlib Require Import String Ascii List Bool.
Import ListNotations.
Open Scope list_scope.
Open Scope string_scope.

(** ** Host reads *)

Inductive read (A : Type) : Type :=
| Ok (a : A)
| Raise.
Arguments Ok {A} a.
Arguments Raise {A}.

(** An opaque host value on which the script only uses truthiness
    ([if v:]) and [str(v)]. *)
Record pyval : Type := PyVal { truthy : bool; py_str : string }.

(** Truthiness of a Python [str]. *)
Definition str_truthy (s : string) : bool := negb (s =? "").

(** ** Output documents *)

#[warnings="-register-all"]
Inductive json : Type :=
| JStr (s : string)
| JBool (b : bool)
| JList (xs : list json)
| JDict (kv : list (string * json)).

Definition dict : Type := list (string * json).

Fixpoint dict_get (k : string) (d : dict) : option json :=
  match d with
  | [] => None
  | (k', v) :: d' => if k =? k' then Some v else dict_get k d'
  end.

(** [d[k] = v]: overwrite in place, or append at the end. *)
Fixpoint dict_set (k : string) (v : json) (d : dict) : dict :=
  match d with
  | [] => [(k, v)]
  | (k', v') :: d' =>
      if k =? k' then (k, v) :: d' else (k', v') :: dict_set k v d'
  end.

Definition dict_keys (d : dict) : list string := map fst d.

(** [d[k].append(v)]: the list stored under [k] is mutated through the
    dict; [KeyError]/[AttributeError] when there is no list there. *)
Definition dict_append (k : string) (v : json) (d : dict) : read dict :=
  match dict_get k d with
  | Some (JList xs) => Ok (dict_set k (JList (xs ++ [v])%list) d)
  | _ => Raise
  end.

(** ** State-and-exception monad for [try] blocks *)

Definition M (S A : Type) : Type := S -> S * read A.

Definition ret {S A} (a : A) : M S A := fun s => (s, Ok a).

Definition bind {S A B} (m : M S A) (f : A -> M S B) : M S B :=
  fun s =>
    match m s with
    | (s', Ok a) => f a s'
    | (s', Raise) => (s', Raise)
    end.

(** A host read inside a block. *)
Definition lift {S A} (r : read A) : M S A := fun s => (s, r).

Definition modify {S} (f : S -> S) : M S unit := fun s => (f s, Ok tt).

(** A mutation that may itself raise (the state is then unchanged). *)
Definition modify_or_raise {S} (f : S -> read S) : M S unit :=
  fun s => match f s with Ok s' => (s', Ok tt) | Raise => (s, Raise) end.

Definition when {S} (b : bool) (m : M S unit) : M S unit :=
  if b then m else ret tt.

(** [try: m  except Exception: pass] *)
Definition try_pass {S A} (m : M S A) : M S unit :=
  fun s => (fst (m s), Ok tt).

(** [for x in xs: body x]; an exception leaves the loop. *)
Fixpoint for_each {S X} (xs : list X) (body : X -> M S unit) : M S unit :=
  match xs with
  | [] => ret tt
  | x :: xs' => bind (body x) (fun _ => for_each xs' body)
  end.

(** A block that works on a fresh local [t0]; the local is handed on when
    the block completes and is lost when it raises. *)
Definition with_local {S T} (t0 : T) (m : M T unit) : M S T :=
  fun s =>
    match m t0 with
    | (t, Ok _) => (s, Ok t)
    | (_, Raise) => (s, Raise)
    end.

(** Final state of a block run from [s]. *)
Definition exec {S A} (m : M S A) (s : S) : S := fst (m s).

Declare Scope try_scope.
Delimit Scope try_scope with try.
Notation "x <- m ;; k" := (bind m (fun x => k))
  (at level 61, m at next level, right associativity) : try_scope.
Notation "m ;;; k" := (bind m (fun _ => k))
  (at level 61, right associativity) : try_scope.

(** Error monad on plain reads, for the unguarded statements. *)
Definition rbind {A B} (r : read A) (f : A -> read B) : read B :=
  match r with Ok a => f a | Raise => Raise end.

(** ** Strings: [str.upper] and [in] *)

(** A Python [str] of which the script takes [upper()]: its text, and
    what [str.upper] gives for it.  The case mapping is the interpreter's
    (the Unicode one: the upper-casing of a dotless i is [I]), not this
    script's, so it comes with the value.  Texts are UTF-8. *)
Record pystr : Type := PyStr { text : string; upper : string }.

(** [needle in hay]. *)
Fixpoint str_in (needle hay : string) : bool :=
  prefix needle hay ||
  match hay with
  | EmptyString => false
  | String _ hay' => str_in needle hay'
  end.

(** ** Host objects, as the script reads them *)

(** Any host object of which only [get_name()] is used. *)
Record NamedObj : Type := { get_name : read string }.

(** [pin.get_editor_property("pin_type")]. *)
Record PinType : Type := {
  pin_category : read string;
  pin_sub_category_object : read (option NamedObj)
}.

(** An endpoint found in [linked_to].  [lp_owner_class] is the chain
    [linked_pin.get_owning_node().get_class().get_name()], which raises as
    soon as one of its steps does. *)
Record LinkedPin : Type := {
  lp_owner_class : read string;
  lp_pin_name : read string
}.

(** A pin.  A collection read gives the list of its entries; [None] and the
    empty collection are both falsy and are both the empty list here. *)
Record Pin : Type := {
  pin_direction : read pystr;
  pin_name : read string;
  pin_type : read PinType;
  pin_default_value : read pyval;
  pin_linked_to : read (list LinkedPin)
}.

(** ** [get_pin_default] (lines 6-13) *)

Definition get_pin_default (pin : Pin) : option string :=
  match pin_default_value pin with
  | Ok default => if truthy default then Some (py_str default) else None
  | Raise => None
  end.

(** ** [get_pin_type_str] (lines 16-25) *)

Definition get_pin_type_str (pin : Pin) : string :=
  match
    rbind (pin_type pin) (fun pt =>
    rbind (pin_category pt) (fun category =>
    rbind (pin_sub_category_object pt) (fun sub_obj =>
      match sub_obj with
      | Some o => rbind (get_name o) (fun n => Ok (category ++ "(" ++ n ++ ")"))
      | None => Ok category
      end)))
  with
  | Ok s => s
  | Raise => "unknown"
  end.

(** ** [serialize_pin] (lines 28-54) *)

Definition is_input (direction : pystr) : bool :=
  str_in "INPUT" (upper direction) || str_in "EGPD_INPUT" (upper direction).

Definition pin_fallback : dict :=
  [("name", JStr "unknown"); ("direction", JStr "unknown");
   ("type", JStr "unknown")].

(** The body of the loop at lines 45-47, on the local [connections]. *)
Definition link_step (linked_pin : LinkedPin) : M (list json) unit :=
  (owner <- lift (lp_owner_class linked_pin) ;;
   name <- lift (lp_pin_name linked_pin) ;;
   modify (fun connections => (connections ++ [JStr (owner ++ ":" ++ name)])%list))%try.

(** The inner [try] at lines 41-50, on [info]. *)
Definition pin_links (pin : Pin) : M dict unit :=
  try_pass
    (linked <- lift (pin_linked_to pin) ;;
     match linked with
     | [] => ret tt
     | _ :: _ =>
         connections <- with_local [] (for_each linked link_step) ;;
         modify (dict_set "connected_to" (JList connections))
     end)%try.

Definition serialize_pin (pin : Pin) : dict :=
  match
    rbind (pin_direction pin) (fun direction =>
    rbind (pin_name pin) (fun name =>
      let info :=
        [("name", JStr name);
         ("direction", JStr (if is_input direction then "Input" else "Output"));
         ("type", JStr (get_pin_type_str pin))] in
      let info :=
        match get_pin_default pin with
        | Some default =>
            if str_truthy default
            then dict_set "default" (JStr default) info
            else info
        | None => info
        end in
      Ok (exec (pin_links pin) info)))
  with
  | Ok info => info
  | Raise => pin_fallback
  end.

(** ** [serialize_node] (lines 57-122) *)

(** A member reference ([function_reference], [variable_reference],
    [event_reference]). *)
Record MemberRef : Type := {
  member_name : read pyval;
  member_parent : read (option NamedObj)
}.

(** A node.  [node_class] is [node.get_class().get_name()]. *)
Record Node : Type := {
  node_class : read string;
  node_name : read string;
  node_comment : read pyval;
  function_reference : read (option MemberRef);
  variable_reference : read (option MemberRef);
  event_reference : read (option MemberRef);
  custom_function_name : read pyval;
  macro_graph_reference : read (option NamedObj);
  node_pins : read (list Pin)
}.

(** Lines 64-69. *)
Definition node_comment_block (node : Node) : M dict unit :=
  try_pass
    (comment <- lift (node_comment node) ;;
     when (truthy comment)
       (modify (dict_set "comment" (JStr (py_str comment)))))%try.

(** Lines 72-82. *)
Definition call_function_block (node : Node) : M dict unit :=
  try_pass
    (member_ref <- lift (function_reference node) ;;
     match member_ref with
     | None => ret tt
     | Some ref =>
         name <- lift (member_name ref) ;;
         when (truthy name)
           (modify (dict_set "function" (JStr (py_str name)))) ;;;
         parent <- lift (member_parent ref) ;;
         match parent with
         | None => ret tt
         | Some cls =>
             n <- lift (get_name cls) ;;
             modify (dict_set "target_class" (JStr n))
         end
     end)%try.

(** Lines 84-89. *)
Definition variable_block (node : Node) : M dict unit :=
  try_pass
    (var_ref <- lift (variable_reference node) ;;
     match var_ref with
     | None => ret tt
     | Some ref =>
         name <- lift (member_name ref) ;;
         modify (dict_set "variable" (JStr (py_str name)))
     end)%try.

(** Lines 91-99. *)
Definition event_block (node_class : string) (node : Node) : M dict unit :=
  try_pass
    (if node_class =? "K2Node_CustomEvent" then
       name <- lift (custom_function_name node) ;;
       modify (dict_set "event_name" (JStr (py_str name)))
     else
       member_ref <- lift (event_reference node) ;;
       match member_ref with
       | None => ret tt
       | Some ref =>
           name <- lift (member_name ref) ;;
           modify (dict_set "event_name" (JStr (py_str name)))
       end)%try.

(** Lines 101-106. *)
Definition macro_block (node : Node) : M dict unit :=
  try_pass
    (macro_graph <- lift (macro_graph_reference node) ;;
     match macro_graph with
     | None => ret tt
     | Some g =>
         n <- lift (get_name g) ;;
         modify (dict_set "macro" (JStr n))
     end)%try.

(** The [if]/[elif] chain of lines 71-106. *)
Definition kind_block (node_class : string) (node : Node) : M dict unit :=
  if node_class =? "K2Node_CallFunction" then call_function_block node
  else if (node_class =? "K2Node_VariableGet")
          || (node_class =? "K2Node_VariableSet") then variable_block node
  else if (node_class =? "K2Node_Event")
          || (node_class =? "K2Node_CustomEvent") then event_block node_class node
  else if node_class =? "K2Node_MacroInstance" then macro_block node
  else ret tt.

(** [pin_name in ("execute", "then", "")]. *)
Definition is_sentinel (pin_name : string) : bool :=
  (pin_name =? "execute") || (pin_name =? "then") || (pin_name =? "").

(** The body of the loop at lines 113-116, on the local [pin_list]. *)
Definition pin_step (pin : Pin) : M (list json) unit :=
  (name <- lift (pin_name pin) ;;
   if is_sentinel name then ret tt
   else modify (fun pin_list => (pin_list ++ [JDict (serialize_pin pin)])%list))%try.

(** Lines 108-120. *)
Definition pins_block (node : Node) : M dict unit :=
  try_pass
    (pins <- lift (node_pins node) ;;
     match pins with
     | [] => ret tt
     | _ :: _ =>
         pin_list <- with_local [] (for_each pins pin_step) ;;
         match pin_list with
         | [] => ret tt
         | _ :: _ => modify (dict_set "pins" (JList pin_list))
         end
     end)%try.

Definition serialize_node (node : Node) : read dict :=
  rbind (node_class node) (fun cls =>
  rbind (node_name node) (fun name =>
    let info := [("class", JStr cls); ("name", JStr name)] in
    Ok (exec (node_comment_block node ;;;
              kind_block cls node ;;;
              pins_block node)%try info))).

(** ** [serialize_graph] (lines 125-145) *)

Record Graph : Type := {
  graph_name : read string;
  graph_class : read string;
  graph_nodes : read (list Node)
}.

(** The body of the loop at lines 139-140, on the local [nodes]. *)
Definition node_step (node : Node) : M (list json) unit :=
  (info <- lift (serialize_node node) ;;
   modify (fun nodes => (nodes ++ [JDict info])%list))%try.

(** Lines 136-142; [nodes] is created before the [try] and read after it. *)
Definition nodes_block (graph : Graph) : M (list json) unit :=
  try_pass
    (graph_nodes <- lift (graph_nodes graph) ;;
     for_each graph_nodes node_step)%try.

Definition serialize_graph (graph : Graph) : read dict :=
  rbind (graph_name graph) (fun name =>
    let graph_info := [("name", JStr name)] in
    let graph_info :=
      match graph_class graph with
      | Ok c => dict_set "class" (JStr c) graph_info
      | Raise => graph_info
      end in
    let nodes := exec (nodes_block graph) [] in
    Ok (dict_set "nodes" (JList nodes) graph_info)).

(** ** [get_property_info] (lines 148-190) *)

Inductive PropertyFlag : Type :=
| BLUEPRINT_VISIBLE
| BLUEPRINT_READ_ONLY
| EDIT_ANYWHERE
| NET_REPLICATE.

(** A declared property; [prop_class] is [prop.get_class().get_name()]. *)
Record Property : Type := {
  prop_get_name : read string;
  prop_class : read string;
  has_any_property_flags : PropertyFlag -> read bool
}.

(** The class default object: [cdo.get_editor_property(name)] gives [None]
    or a value, kept as its [str]. *)
Record DefaultObject : Type := {
  cdo_get_editor_property : string -> read (option string)
}.

(** The generated class. *)
Record GenClass : Type := {
  class_get_name : read string;
  get_super_class : read (option NamedObj);
  get_default_object : read (option DefaultObject);
  properties : read (list Property)
}.

(** Lines 165-170, on [prop_info]. *)
Definition default_value_block (cdo : DefaultObject) (prop_name : string)
  : M dict unit :=
  try_pass
    (value <- lift (cdo_get_editor_property cdo prop_name) ;;
     match value with
     | Some s => modify (dict_set "default_value" (JStr s))
     | None => ret tt
     end)%try.

Definition flag_step (prop : Property) (f : PropertyFlag) (key : string)
  : M dict unit :=
  (b <- lift (has_any_property_flags prop f) ;;
   when b (modify (dict_set key (JBool true))))%try.

(** Lines 172-182, on [prop_info]. *)
Definition flags_block (prop : Property) : M dict unit :=
  try_pass
    (flag_step prop BLUEPRINT_VISIBLE "blueprint_visible" ;;;
     flag_step prop BLUEPRINT_READ_ONLY "blueprint_read_only" ;;;
     flag_step prop EDIT_ANYWHERE "edit_anywhere" ;;;
     flag_step prop NET_REPLICATE "replicated")%try.

(** The body of the loop at lines 156-186, on [properties]. *)
Definition property_step (cdo : DefaultObject) (prop : Property)
  : M (list json) unit :=
  try_pass
    (prop_name <- lift (prop_get_name prop) ;;
     prop_class <- lift (prop_class prop) ;;
     let prop_info :=
       exec (default_value_block cdo prop_name ;;; flags_block prop)
            [("name", JStr prop_name); ("property_class", JStr prop_class)] in
     modify (fun properties => (properties ++ [JDict prop_info])%list))%try.

Definition get_property_info (bp_class : GenClass) : list json :=
  exec
    (try_pass
       (cdo <- lift (get_default_object bp_class) ;;
        match cdo with
        | None => ret tt
        | Some cdo =>
            props <- lift (properties bp_class) ;;
            for_each props (property_step cdo)
        end))%try
    [].

(** ** [get_components] (lines 193-218) *)

(** A component template; [template_class] is
    [template.get_class().get_name()]. *)
Record Template : Type := {
  template_name : read string;
  template_class : read string
}.

Record SCSNode : Type := {
  component_template : read (option Template);
  parent_component_or_variable_name : read pyval
}.

Record SCS : Type := { get_all_nodes : read (list SCSNode) }.

(** The body of the loop at lines 200-214, on [components]. *)
Definition component_step (scs_node : SCSNode) : M (list json) unit :=
  try_pass
    (template <- lift (component_template scs_node) ;;
     match template with
     | None => ret tt
     | Some t =>
         name <- lift (template_name t) ;;
         cls <- lift (template_class t) ;;
         parent_node <- lift (parent_component_or_variable_name scs_node) ;;
         let comp_info := [("name", JStr name); ("class", JStr cls)] in
         let comp_info :=
           if truthy parent_node
           then dict_set "parent" (JStr (py_str parent_node)) comp_info
           else comp_info in
         modify (fun components => (components ++ [JDict comp_info])%list)
     end)%try.

(** ** [blueprint_to_text] (lines 221-312) *)

(** An entry of [implemented_interfaces]. *)
Record Interface : Type := { iface_interface : read (option NamedObj) }.

Record Blueprint : Type := {
  bp_get_name : read string;
  bp_get_path_name : read string;
  generated_class : read (option GenClass);
  blueprint_type : read string;
  implemented_interfaces : read (list Interface);
  simple_construction_script : read (option SCS);
  ubergraph_pages : read (list Graph);
  function_graphs : read (list Graph);
  macro_graphs : read (list Graph)
}.

Definition get_components (bp : Blueprint) : list json :=
  exec
    (try_pass
       (scs <- lift (simple_construction_script bp) ;;
        match scs with
        | None => ret tt
        | Some scs =>
            root_nodes <- lift (get_all_nodes scs) ;;
            for_each root_nodes component_step
        end))%try
    [].

(** What [load_asset] gives when it gives something: a Blueprint
    ([isinstance(asset, unreal.Blueprint)]) or another object, of which
    only [asset.get_class().get_name()] is read. *)
Inductive Asset : Type :=
| OtherAsset (asset_class : read string)
| BlueprintAsset (bp : Blueprint).

(** Lines 234-242, on [result]. *)
Definition generated_class_block (asset : Blueprint) : M dict unit :=
  try_pass
    (gen_class <- lift (generated_class asset) ;;
     match gen_class with
     | None => ret tt
     | Some gc =>
         n <- lift (class_get_name gc) ;;
         modify (dict_set "generated_class" (JStr n)) ;;;
         parent <- lift (get_super_class gc) ;;
         match parent with
         | None => ret tt
         | Some p =>
             pn <- lift (get_name p) ;;
             modify (dict_set "parent_class" (JStr pn))
         end
     end)%try.

(** Lines 244-248. *)
Definition blueprint_type_block (asset : Blueprint) : M dict unit :=
  try_pass
    (bp_type <- lift (blueprint_type asset) ;;
     modify (dict_set "blueprint_type" (JStr bp_type)))%try.

(** The body of the loop at lines 255-260. *)
Definition interface_step (iface : Interface) : M dict unit :=
  try_pass
    (iface_class <- lift (iface_interface iface) ;;
     match iface_class with
     | None => ret tt
     | Some c =>
         n <- lift (get_name c) ;;
         modify_or_raise (dict_append "interfaces" (JStr n))
     end)%try.

(** Lines 250-262. *)
Definition interfaces_block (asset : Blueprint) : M dict unit :=
  try_pass
    (interfaces <- lift (implemented_interfaces asset) ;;
     match interfaces with
     | [] => ret tt
     | _ :: _ =>
         modify (dict_set "interfaces" (JList [])) ;;;
         for_each interfaces interface_step
     end)%try.

(** Lines 264-271. *)
Definition variables_block (asset : Blueprint) : M dict unit :=
  try_pass
    (gen_class <- lift (generated_class asset) ;;
     match gen_class with
     | None => ret tt
     | Some gc =>
         match get_property_info gc with
         | [] => ret tt
         | props => modify (dict_set "variables" (JList props))
         end
     end)%try.

(** The loop body shared by lines 282-285, 292-295 and 302-305, on
    [graphs]. *)
Definition graph_step (graph_type : string) (graph : Graph)
  : M (list json) unit :=
  (g <- lift (serialize_graph graph) ;;
   modify (fun graphs =>
     (graphs ++ [JDict (dict_set "graph_type" (JStr graph_type) g)])%list))%try.

(** One of the three [try] blocks of lines 279-307. *)
Definition graphs_block (graph_type : string) (pages : read (list Graph))
  : M (list json) unit :=
  try_pass
    (pages <- lift pages ;;
     for_each pages (graph_step graph_type))%try.

Section Orchestrator.

(** [unreal.EditorAssetLibrary.load_asset]: [None] when the path resolves
    to nothing. *)
Variable load_asset : string -> option Asset.

Definition blueprint_to_text (asset_path : string) : read dict :=
  match load_asset asset_path with
  | None => Ok [("error", JStr ("Asset not found: " ++ asset_path))]
  | Some (OtherAsset asset_class) =>
      rbind asset_class (fun c =>
        Ok [("error",
             JStr ("Asset is not a Blueprint: " ++ asset_path
                   ++ " (class: " ++ c ++ ")"))])
  | Some (BlueprintAsset asset) =>
      rbind (bp_get_name asset) (fun name =>
      rbind (bp_get_path_name asset) (fun path =>
        let result := [("name", JStr name); ("path", JStr path)] in
        let result :=
          exec (generated_class_block asset ;;;
                blueprint_type_block asset ;;;
                interfaces_block asset ;;;
                variables_block asset)%try result in
        let components := get_components asset in
        let result :=
          match components with
          | [] => result
          | _ :: _ => dict_set "components" (JList components) result
          end in
        let graphs :=
          exec (graphs_block "EventGraph" (ubergraph_pages asset) ;;;
                graphs_block "Function" (function_graphs asset) ;;;
                graphs_block "Macro" (macro_graphs asset))%try [] in
        let result :=
          match graphs with
          | [] => result
          | _ :: _ => dict_set "graphs" (JList graphs) result
          end in
        Ok result))
  end.

End Orchestrator.

(** * Vocabulary of the statements *)

(** The textual form [d] contains an input marker, whatever the case of
    its letters: its upper-casing contains [INPUT]. *)
Definition contains_input_marker (d : pystr) : Prop :=
  exists a b, upper d = a ++ "INPUT" ++ b.

(** The cross-reference of one endpoint, when both of its reads succeed. *)
Definition link_text (l : LinkedPin) : read string :=
  rbind (lp_owner_class l) (fun owner =>
  rbind (lp_pin_name l) (fun name => Ok (owner ++ ":" ++ name))).

(** [info] as it stands at line 40, before the links are looked at. *)
Definition pin_info (p : Pin) (direction : pystr) (name : string) : dict :=
  let info :=
    [("name", JStr name);
     ("direction", JStr (if is_input direction then "Input" else "Output"));
     ("type", JStr (get_pin_type_str p))] in
  match get_pin_default p with
  | Some default =>
      if str_truthy default then dict_set "default" (JStr default) info
      else info
  | None => info
  end.

(** The same pin with another content of [linked_to]. *)
Definition with_links (links : read (list LinkedPin)) (p : Pin) : Pin :=
  {| pin_direction := pin_direction p;
     pin_name := pin_name p;
     pin_type := pin_type p;
     pin_default_value := pin_default_value p;
     pin_linked_to := links |}.


(** * Sample host objects *)

Definition float_type : PinType :=
  {| pin_category := Ok "float"; pin_sub_category_object := Ok None |}.

Definition health_link : LinkedPin :=
  {| lp_owner_class := Ok "K2Node_VariableGet"; lp_pin_name := Ok "Health" |}.

(** An endpoint whose owning node cannot be reached. *)
Definition orphan_link : LinkedPin :=
  {| lp_owner_class := Raise; lp_pin_name := Ok "Target" |}.

(** The direction values of the host, with their upper-casing. *)
Definition input_direction : pystr :=
  {| text := "EdGraphPinDirection.EGPD_INPUT";
     upper := "EDGRAPHPINDIRECTION.EGPD_INPUT" |}.

Definition output_direction : pystr :=
  {| text := "EdGraphPinDirection.EGPD_OUTPUT";
     upper := "EDGRAPHPINDIRECTION.EGPD_OUTPUT" |}.

(** A direction text spelt with a dotless i, which [str.upper] maps to
    [I]. *)
Definition dotless_direction : pystr :=
  {| text := "EGPD_ınput"; upper := "EGPD_INPUT" |}.

(** An unwired pin whose direction is spelt with the dotless i. *)
Definition dotless_pin : Pin :=
  {| pin_direction := Ok dotless_direction;
     pin_name := Ok "Amount";
     pin_type := Raise;
     pin_default_value := Raise;
     pin_linked_to := Ok [] |}.

(** A wired input pin that also holds a literal default. *)
Definition damage_pin : Pin :=
  {| pin_direction := Ok input_direction;
     pin_name := Ok "Damage";
     pin_type := Ok float_type;
     pin_default_value := Ok (PyVal true "5.0");
     pin_linked_to := Ok [health_link] |}.

(** An input pin whose direction reads and whose name does not. *)
Definition nameless_input_pin : Pin :=
  {| pin_direction := Ok input_direction;
     pin_name := Raise;
     pin_type := Ok float_type;
     pin_default_value := Raise;
     pin_linked_to := Ok [] |}.

(** An output pin with two endpoints, the second one unresolvable. *)
Definition half_linked_pin : Pin :=
  {| pin_direction := Ok output_direction;
     pin_name := Ok "ReturnValue";
     pin_type := Ok float_type;
     pin_default_value := Raise;
     pin_linked_to := Ok [health_link; orphan_link] |}.

(** A block that always completes. *)
Definition never_raises {S} (m : M S unit) : Prop :=
  forall s, snd (m s) = Ok tt.

(** [extends allowed d d']: [d'] is [d] after some assignments [d[k] = v]
    with [k] among [allowed]. *)
Inductive extends (allowed : list string) (d : dict) : dict -> Prop :=
| ext_refl : extends allowed d d
| ext_set (d' : dict) (k : string) (v : json) :
    extends allowed d d' -> In k allowed ->
    extends allowed d (dict_set k v d').

(** The kind tags with a branch of their own in [serialize_node]. *)
Definition recognized_kinds : list string :=
  ["K2Node_CallFunction"; "K2Node_VariableGet"; "K2Node_VariableSet";
   "K2Node_Event"; "K2Node_CustomEvent"; "K2Node_MacroInstance"].

Definition base_fields : list string := ["class"; "name"; "comment"; "pins"].

(** The extension fields a kind tag may carry. *)
Definition extension_fields (kind : string) : list string :=
  if kind =? "K2Node_CallFunction" then ["function"; "target_class"]
  else if (kind =? "K2Node_VariableGet") || (kind =? "K2Node_VariableSet")
  then ["variable"]
  else if (kind =? "K2Node_Event") || (kind =? "K2Node_CustomEvent")
  then ["event_name"]
  else if kind =? "K2Node_MacroInstance" then ["macro"]
  else [].

(** A pin that passes the name filter of lines 113-115. *)
Definition kept (p : Pin) : bool :=
  match pin_name p with
  | Ok n => negb (is_sentinel n)
  | Raise => false
  end.

Definition pin_fragment (p : Pin) : json := JDict (serialize_pin p).

(** [info] of [serialize_node] as it stands at line 107, before the pins
    are looked at. *)
Definition node_info_before_pins (node : Node) (cls name : string) : dict :=
  exec (kind_block cls node)
       (exec (node_comment_block node) [("class", JStr cls); ("name", JStr name)]).

(** A null entry of a host collection: every read on it raises. *)
Definition null_pin : Pin :=
  {| pin_direction := Raise; pin_name := Raise; pin_type := Raise;
     pin_default_value := Raise; pin_linked_to := Raise |}.

(** A pin with a readable name and nothing else. *)
Definition target_pin : Pin :=
  {| pin_direction := Raise; pin_name := Ok "Target"; pin_type := Raise;
     pin_default_value := Raise; pin_linked_to := Raise |}.

Definition exec_pin : Pin :=
  {| pin_direction := Ok input_direction;
     pin_name := Ok "execute";
     pin_type := Ok {| pin_category := Ok "exec";
                       pin_sub_category_object := Ok None |};
     pin_default_value := Ok (PyVal false "");
     pin_linked_to := Ok [] |}.

(** A node of a kind without a branch of its own, with the given pins. *)
Definition knot_node (pins : list Pin) : Node :=
  {| node_class := Ok "K2Node_Knot";
     node_name := Ok "K2Node_Knot_0";
     node_comment := Ok (PyVal false "");
     function_reference := Raise;
     variable_reference := Raise;
     event_reference := Raise;
     custom_function_name := Raise;
     macro_graph_reference := Raise;
     node_pins := Ok pins |}.

(** A call-function node with its reference resolved. *)
Definition print_node : Node :=
  {| node_class := Ok "K2Node_CallFunction";
     node_name := Ok "K2Node_CallFunction_3";
     node_comment := Ok (PyVal true "log it");
     function_reference :=
       Ok (Some {| member_name := Ok (PyVal true "PrintString");
                   member_parent :=
                     Ok (Some {| get_name := Ok "KismetSystemLibrary" |}) |});
     variable_reference := Raise;
     event_reference := Raise;
     custom_function_name := Raise;
     macro_graph_reference := Raise;
     node_pins := Ok [exec_pin; damage_pin] |}.

(** The entries of a graph collection: none when it cannot be read. *)
Definition graphs_of (pages : read (list Graph)) : list Graph :=
  match pages with Ok gs => gs | Raise => [] end.

(** A graph fragment with the [graph_type] stamp of lines 284, 294, 304. *)
Definition stamp (graph_type : string) (g : dict) : json :=
  JDict (dict_set "graph_type" (JStr graph_type) g).

(** [graphs] of [blueprint_to_text] as it stands at line 308. *)
Definition asset_graphs (asset : Blueprint) : list json :=
  exec (graphs_block "EventGraph" (ubergraph_pages asset) ;;;
        graphs_block "Function" (function_graphs asset) ;;;
        graphs_block "Macro" (macro_graphs asset))%try [].

(** [result] of [blueprint_to_text] as it stands at line 276. *)
Definition asset_info_before_graphs (asset : Blueprint) (name path : string)
  : dict :=
  let result :=
    exec (generated_class_block asset ;;;
          blueprint_type_block asset ;;;
          interfaces_block asset ;;;
          variables_block asset)%try
         [("name", JStr name); ("path", JStr path)] in
  match get_components asset with
  | [] => result
  | components => dict_set "components" (JList components) result
  end.

(** The keys [blueprint_to_text] may assign before the graphs. *)
Definition asset_fields : list string :=
  ["generated_class"; "parent_class"; "blueprint_type"; "interfaces";
   "variables"; "components"].

(** An interface record that resolves to no name. *)
Definition unresolved (iface : Interface) : Prop :=
  match iface_interface iface with
  | Ok (Some c) => get_name c = Raise
  | _ => True
  end.

(** A null node: every read on it raises. *)
Definition null_node : Node :=
  {| node_class := Raise; node_name := Raise; node_comment := Raise;
     function_reference := Raise; variable_reference := Raise;
     event_reference := Raise; custom_function_name := Raise;
     macro_graph_reference := Raise; node_pins := Raise |}.

(** A graph whose second node is null. *)
Definition torn_graph : Graph :=
  {| graph_name := Ok "EventGraph";
     graph_class := Ok "EdGraph";
     graph_nodes := Ok [knot_node []; null_node; print_node] |}.

Definition empty_graph (name : string) : Graph :=
  {| graph_name := Ok name; graph_class := Ok "EdGraph";
     graph_nodes := Ok [] |}.

(** An interface record whose class cannot be read. *)
Definition stale_interface : Interface := {| iface_interface := Raise |}.

(** A Blueprint with one empty event graph, one empty function graph, and
    the given interface records. *)
Definition door_blueprint (interfaces : list Interface) : Blueprint :=
  {| bp_get_name := Ok "BP_Door";
     bp_get_path_name := Ok "/Game/BP_Door.BP_Door";
     generated_class := Ok None;
     blueprint_type := Ok "BlueprintType.BPTYPE_NORMAL";
     implemented_interfaces := Ok interfaces;
     simple_construction_script := Ok None;
     ubergraph_pages := Ok [empty_graph "EventGraph"];
     function_graphs := Ok [empty_graph "Open"];
     macro_graphs := Raise |}.

(** A small content directory. *)
Definition sample_load_asset (path : string) : option Asset :=
  if path =? "/Game/BP_Door" then
    Some (BlueprintAsset (door_blueprint [stale_interface]))
  else if path =? "/Game/SM_Rock" then
    Some (OtherAsset (Ok "StaticMesh"))
  else None.

(** * Vocabulary of the further properties *)

(** The key [k] as a one-element list when [d] has it, else nothing. *)
Definition key_if_present (k : string) (d : dict) : list string :=
  match dict_get k d with Some _ => [k] | None => [] end.

(** A pin whose direction and name both read: its fragment is not the
    fallback. *)
Definition pin_readable (p : Pin) : Prop :=
  pin_direction p <> Raise /\ pin_name p <> Raise.

(** A variable-get node over an unnamed member. *)
Definition unnamed_variable_node : Node :=
  {| node_class := Ok "K2Node_VariableGet";
     node_name := Ok "K2Node_VariableGet_1";
     node_comment := Raise;
     function_reference := Raise;
     variable_reference :=
       Ok (Some {| member_name := Ok (PyVal false "");
                   member_parent := Raise |});
     event_reference := Raise;
     custom_function_name := Raise;
     macro_graph_reference := Raise;
     node_pins := Raise |}.

(** A call-function node whose member name cannot be read although its
    owning class can. *)
Definition nameless_call_node : Node :=
  {| node_class := Ok "K2Node_CallFunction";
     node_name := Ok "K2Node_CallFunction_7";
     node_comment := Ok (PyVal false "");
     function_reference :=
       Ok (Some {| member_name := Raise;
                   member_parent :=
                     Ok (Some {| get_name := Ok "KismetMathLibrary" |}) |});
     variable_reference := Raise;
     event_reference := Raise;
     custom_function_name := Raise;
     macro_graph_reference := Raise;
     node_pins := Ok [] |}.

(** A custom event that also has an event reference. *)
Definition custom_event_node : Node :=
  {| node_class := Ok "K2Node_CustomEvent";
     node_name := Ok "K2Node_CustomEvent_0";
     node_comment := Raise;
     function_reference := Raise;
     variable_reference := Raise;
     event_reference :=
       Ok (Some {| member_name := Ok (PyVal true "ReceiveBeginPlay");
                   member_parent := Raise |});
     custom_function_name := Ok (PyVal true "OnDoorOpened");
     macro_graph_reference := Raise;
     node_pins := Raise |}.

(** The results of [f] on the items of [xs] up to the first one on which
    it raises. *)
Fixpoint ok_prefix {X Y} (f : X -> read Y) (xs : list X) : list Y :=
  match xs with
  | [] => []
  | x :: xs' =>
      match f x with
      | Ok y => y :: ok_prefix f xs'
      | Raise => []
      end
  end.

(** The entries of a graph's node collection: none when it cannot be
    read. *)
Definition nodes_of (g : Graph) : list Node :=
  match graph_nodes g with Ok ns => ns | Raise => [] end.

(** A graph whose kind tag cannot be read. *)
Definition untyped_graph : Graph :=
  {| graph_name := Ok "Construct";
     graph_class := Raise;
     graph_nodes := Ok [print_node] |}.

(** The loop of lines 155-186 on its own: the descriptors it leaves in
    [properties] for the declared properties [props]. *)
Definition descriptors_of (cdo : DefaultObject) (props : list Property)
  : list json :=
  exec (for_each props (property_step cdo)) [].

(** [prop_info] as it stands at line 184, for a property whose name and
    kind read as [name] and [cls]. *)
Definition property_info (cdo : DefaultObject) (name cls : string)
           (prop : Property) : dict :=
  exec (default_value_block cdo name ;;; flags_block prop)%try
       [("name", JStr name); ("property_class", JStr cls)].

(** The loop of lines 199-214 on its own. *)
Definition components_of (scs_nodes : list SCSNode) : list json :=
  exec (for_each scs_nodes component_step) [].

(** A property of the given name whose flag checks answer as given. *)
Definition sample_property (name : string) (flags : PropertyFlag -> read bool)
  : Property :=
  {| prop_get_name := Ok name;
     prop_class := Ok "FloatProperty";
     has_any_property_flags := flags |}.

(** A null property: every read on it raises. *)
Definition null_property : Property :=
  {| prop_get_name := Raise; prop_class := Raise;
     has_any_property_flags := fun _ => Raise |}.

(** Visible and replicated, with a read-only check that raises. *)
Definition torn_flags (f : PropertyFlag) : read bool :=
  match f with
  | BLUEPRINT_VISIBLE => Ok true
  | BLUEPRINT_READ_ONLY => Raise
  | EDIT_ANYWHERE => Ok false
  | NET_REPLICATE => Ok true
  end.

Definition plain_flags (f : PropertyFlag) : read bool :=
  match f with
  | EDIT_ANYWHERE => Ok true
  | _ => Ok false
  end.

(** A default object that knows [Health] only. *)
Definition sample_cdo : DefaultObject :=
  {| cdo_get_editor_property :=
       fun name => if name =? "Health" then Ok (Some "100.0")
                   else if name =? "Speed" then Ok None
                   else Raise |}.

Definition sample_class : GenClass :=
  {| class_get_name := Ok "BP_Door_C";
     get_super_class := Ok (Some {| get_name := Ok "Actor" |});
     get_default_object := Ok (Some sample_cdo);
     properties :=
       Ok [sample_property "Health" torn_flags; null_property;
           sample_property "Speed" plain_flags] |}.

(** A class whose default object cannot be obtained. *)
Definition abstract_class : GenClass :=
  {| class_get_name := Ok "BP_Base_C";
     get_super_class := Raise;
     get_default_object := Ok None;
     properties := Ok [sample_property "Health" plain_flags] |}.

(** The root of a construction script: a template and no parent. *)
Definition root_scs_node : SCSNode :=
  {| component_template :=
       Ok (Some {| template_name := Ok "DefaultSceneRoot";
                   template_class := Ok "SceneComponent" |});
     parent_component_or_variable_name := Ok (PyVal false "None") |}.

(** A mesh attached to the root. *)
Definition mesh_scs_node : SCSNode :=
  {| component_template :=
       Ok (Some {| template_name := Ok "DoorMesh";
                   template_class := Ok "StaticMeshComponent" |});
     parent_component_or_variable_name := Ok (PyVal true "DefaultSceneRoot") |}.

(** A node with a template whose parent name cannot be read. *)
Definition detached_scs_node : SCSNode :=
  {| component_template :=
       Ok (Some {| template_name := Ok "Hinge";
                   template_class := Ok "SceneComponent" |});
     parent_component_or_variable_name := Raise |}.

(** A node whose template has a kind and no readable name. *)
Definition unnamed_scs_node : SCSNode :=
  {| component_template :=
       Ok (Some {| template_name := Raise;
                   template_class := Ok "SceneComponent" |});
     parent_component_or_variable_name := Ok (PyVal true "DefaultSceneRoot") |}.

(** A Blueprint with a generated class and a construction script. *)
Definition gate_blueprint : Blueprint :=
  {| bp_get_name := Ok "BP_Gate";
     bp_get_path_name := Ok "/Game/BP_Gate.BP_Gate";
     generated_class := Ok (Some sample_class);
     blueprint_type := Raise;
     implemented_interfaces :=
       Ok [ {| iface_interface := Ok (Some {| get_name := Ok "Openable_C" |}) |};
            stale_interface;
            {| iface_interface := Ok (Some {| get_name := Ok "Lockable_C" |}) |} ];
     simple_construction_script :=
       Ok (Some {| get_all_nodes :=
                     Ok [root_scs_node; detached_scs_node; mesh_scs_node] |});
     ubergraph_pages := Ok [empty_graph "EventGraph"; torn_graph];
     function_graphs :=
       Ok [empty_graph "Open";
           {| graph_name := Raise; graph_class := Raise; graph_nodes := Raise |};
           empty_graph "Close"];
     macro_graphs := Ok [untyped_graph] |}.

(** [result] of [blueprint_to_text] as it stands at line 272. *)
Definition asset_info_before_components (asset : Blueprint)
           (name path : string) : dict :=
  exec (variables_block asset)
    (exec (interfaces_block asset)
       (exec (blueprint_type_block asset)
          (exec (generated_class_block asset)
             [("name", JStr name); ("path", JStr path)]))).

(** The class name an interface record resolves to, if any. *)
Definition interface_name (iface : Interface) : option string :=
  match iface_interface iface with
  | Ok (Some c) =>
      match get_name c with
      | Ok n => Some n
      | Raise => None
      end
  | _ => None
  end.

(** The results of [f] on the items of [xs] on which it gives one. *)
Fixpoint some_only {X Y} (f : X -> option Y) (xs : list X) : list Y :=
  match xs with
  | [] => []
  | x :: xs' =>
      match f x with
      | Some y => y :: some_only f xs'
      | None => some_only f xs'
      end
  end.

(** A null graph: every read on it raises. *)
Definition null_graph : Graph :=
  {| graph_name := Raise; graph_class := Raise; graph_nodes := Raise |}.

(** A Blueprint whose function graphs hold a null entry between [Open]
    and [Close]. *)
Definition shed_blueprint : Blueprint :=
  {| bp_get_name := Ok "BP_Shed";
     bp_get_path_name := Ok "/Game/BP_Shed.BP_Shed";
     generated_class := Ok None;
     blueprint_type := Raise;
     implemented_interfaces := Ok [];
     simple_construction_script := Ok None;
     ubergraph_pages := Ok [empty_graph "EventGraph"];
     function_graphs :=
       Ok [empty_graph "Open"; null_graph; empty_graph "Close"];
     macro_graphs := Ok [empty_graph "Twice"] |}.

Definition shed_load_asset (path : string) : option Asset :=
  if path =? "/Game/BP_Shed" then Some (BlueprintAsset shed_blueprint)
  else None.

(** A directory with the gate Blueprint and an asset without a kind. *)
Definition gate_load_asset (path : string) : option Asset :=
  if path =? "/Game/BP_Gate" then Some (BlueprintAsset gate_blueprint)
  else if path =? "/Game/Broken" then Some (OtherAsset Raise)
  else None.

(** * Properties *)

(** ** Dicts *)

Lemma dict_get_set_same (k : string) (v : json) (d : dict) :
  dict_get k (dict_set k v d) = Some v.
Proof.
  induction d as [|[k' v'] d IH]; simpl.
  - now rewrite String.eqb_refl.
  - destruct (k =? k') eqn:E; simpl.
    + now rewrite String.eqb_refl.
    + now rewrite E.
Qed.

Lemma dict_get_set_other (k k' : string) (v : json) (d : dict) :
  k <> k' -> dict_get k (dict_set k' v d) = dict_get k d.
Proof.
  intros Hne. induction d as [|[k0 v0] d IH]; simpl.
  - apply String.eqb_neq in Hne. now rewrite Hne.
  - destruct (k' =? k0) eqn:E; simpl.
    + apply String.eqb_eq in E. subst k0.
      apply String.eqb_neq in Hne. now rewrite Hne.
    + destruct (k =? k0); auto.
Qed.

Lemma dict_keys_set (k : string) (v : json) (d : dict) (x : string) :
  In x (dict_keys (dict_set k v d)) <-> x = k \/ In x (dict_keys d).
Proof.
  unfold dict_keys. induction d as [|[k' v'] d IH]; simpl.
  - intuition.
  - destruct (k =? k') eqn:E; simpl.
    + apply String.eqb_eq in E. subst k'. intuition.
    + rewrite IH. intuition.
Qed.

Lemma dict_get_keys (k : string) (d : dict) :
  dict_get k d <> None <-> In k (dict_keys d).
Proof.
  unfold dict_keys. induction d as [|[k' v'] d IH]; simpl.
  - intuition.
  - destruct (k =? k') eqn:E.
    + apply String.eqb_eq in E. subst k'. intuition discriminate.
    + apply String.eqb_neq in E. rewrite IH. intuition congruence.
Qed.

(** ** Strings *)

Lemma prefix_app (a s : string) :
  prefix a s = true <-> exists b, s = a ++ b.
Proof.
  revert s. induction a as [|c a IH]; intros s; simpl.
  - destruct s; simpl; split; eauto.
  - destruct s as [|c' s].
    + split; [discriminate | intros [b Hb]; discriminate].
    + simpl. destruct (ascii_dec c c') as [->|Hne].
      * rewrite IH. split; intros [b Hb]; exists b; congruence.
      * split; [discriminate | intros [b Hb]; congruence].
Qed.

(** [needle in hay] holds exactly when [hay] has [needle] as a
    contiguous part. *)
Lemma str_in_app (needle hay : string) :
  str_in needle hay = true <-> exists a b, hay = a ++ needle ++ b.
Proof.
  split.
  - induction hay as [|c hay IH]; cbn [str_in]; rewrite orb_true_iff.
    + intros [H|H]; [|discriminate].
      apply prefix_app in H. destruct H as [b Hb]. now exists "", b.
    + intros [H|H].
      * apply prefix_app in H. destruct H as [b Hb]. now exists "", b.
      * destruct (IH H) as (a & b & Hab). exists (String c a), b.
        simpl. now rewrite Hab.
  - intros (a & b & Hab). revert hay Hab.
    induction a as [|c a IH]; intros hay Hab; simpl in Hab; subst hay.
    + destruct (needle ++ b) eqn:E; cbn [str_in]; rewrite orb_true_iff;
        left; apply prefix_app; exists b; auto.
    + cbn [str_in]. rewrite orb_true_iff. right. now apply IH.
Qed.

Lemma append_assoc (a b c : string) : (a ++ b) ++ c = a ++ b ++ c.
Proof. induction a as [|x a IH]; simpl; congruence. Qed.

Lemma str_in_upper_marker (d : pystr) :
  str_in "INPUT" (upper d) = true <-> contains_input_marker d.
Proof. apply str_in_app. Qed.

(** The second disjunct of line 31 adds nothing. *)
Lemma is_input_marker (d : pystr) :
  is_input d = true <-> contains_input_marker d.
Proof.
  unfold is_input. rewrite orb_true_iff, <- str_in_upper_marker. split.
  - intros [H|H]; auto.
    apply str_in_app in H. destruct H as (a & b & H).
    apply str_in_app. exists (a ++ "EGPD_"), b.
    rewrite H, append_assoc. reflexivity.
  - auto.
Qed.

(** ** Pins *)

Lemma link_text_raise (l : LinkedPin) :
  lp_owner_class l = Raise \/ lp_pin_name l = Raise -> link_text l = Raise.
Proof.
  unfold link_text. intros [H|H]; rewrite H; simpl; auto.
  destruct (lp_owner_class l); auto.
Qed.

Lemma link_step_run (l : LinkedPin) (acc : list json) :
  link_step l acc =
  match link_text l with
  | Ok s => ((acc ++ [JStr s])%list, Ok tt)
  | Raise => (acc, Raise)
  end.
Proof.
  unfold link_step, link_text, bind, lift, modify.
  destruct (lp_owner_class l); simpl; auto.
  destruct (lp_pin_name l); simpl; auto.
Qed.

Lemma links_raise (ls : list LinkedPin) (acc : list json) :
  (exists l, In l ls /\ link_text l = Raise) ->
  snd (for_each ls link_step acc) = Raise.
Proof.
  revert acc. induction ls as [|l0 ls IH]; intros acc (l & Hin & Hl).
  - destruct Hin.
  - cbn [for_each]. unfold bind. rewrite link_step_run.
    destruct (link_text l0) eqn:E0; auto.
    apply IH. destruct Hin as [->|Hin]; [congruence|eauto].
Qed.

Lemma links_ok (ls : list LinkedPin) (ss : list string) (acc : list json) :
  Forall2 (fun l s => link_text l = Ok s) ls ss ->
  for_each ls link_step acc = ((acc ++ map JStr ss)%list, Ok tt).
Proof.
  intros H. revert acc. induction H as [|l s ls ss Hl _ IH]; intros acc.
  - simpl. now rewrite app_nil_r.
  - cbn [for_each]. unfold bind. rewrite link_step_run, Hl, IH.
    simpl. now rewrite <- app_assoc.
Qed.

Lemma pin_links_unreadable (p : Pin) (info : dict) :
  pin_linked_to p = Raise -> exec (pin_links p) info = info.
Proof. intros H. unfold pin_links, exec, try_pass, bind, lift. now rewrite H. Qed.

Lemma pin_links_empty (p : Pin) (info : dict) :
  pin_linked_to p = Ok [] -> exec (pin_links p) info = info.
Proof. intros H. unfold pin_links, exec, try_pass, bind, lift. now rewrite H. Qed.

Lemma pin_links_broken (p : Pin) (ls : list LinkedPin) (info : dict) :
  pin_linked_to p = Ok ls ->
  (exists l, In l ls /\ link_text l = Raise) ->
  exec (pin_links p) info = info.
Proof.
  intros H Hbad. unfold pin_links, exec, try_pass, bind, lift. rewrite H.
  destruct ls as [|l0 ls]; auto.
  unfold with_local. pose proof (links_raise (l0 :: ls) [] Hbad) as Hr.
  destruct (for_each (l0 :: ls) link_step []) as [cs r]. simpl in Hr.
  now subst r.
Qed.

Lemma pin_links_resolved (p : Pin) (ls : list LinkedPin) (ss : list string)
      (info : dict) :
  pin_linked_to p = Ok ls -> ls <> [] ->
  Forall2 (fun l s => link_text l = Ok s) ls ss ->
  exec (pin_links p) info = dict_set "connected_to" (JList (map JStr ss)) info.
Proof.
  intros H Hne Hall. unfold pin_links, exec, try_pass, bind, lift. rewrite H.
  destruct ls as [|l0 ls]; [congruence|].
  unfold with_local. now rewrite (links_ok _ _ [] Hall).
Qed.

Lemma pin_links_cases (p : Pin) (info : dict) :
  exec (pin_links p) info = info \/
  exists cs, exec (pin_links p) info = dict_set "connected_to" (JList cs) info.
Proof.
  unfold pin_links, exec, try_pass, bind, lift.
  destruct (pin_linked_to p) as [[|l0 ls]|]; auto.
  unfold with_local.
  destruct (for_each (l0 :: ls) link_step []) as [cs [[]|]]; simpl; eauto.
Qed.

Lemma pin_links_other_key (p : Pin) (info : dict) (k : string) :
  k <> "connected_to" ->
  dict_get k (exec (pin_links p) info) = dict_get k info.
Proof.
  intros Hk. destruct (pin_links_cases p info) as [->|[cs ->]]; auto.
  now apply dict_get_set_other.
Qed.

Lemma serialize_pin_readable (p : Pin) (d : pystr) (n : string) :
  pin_direction p = Ok d -> pin_name p = Ok n ->
  serialize_pin p = exec (pin_links p) (pin_info p d n).
Proof. intros Hd Hn. unfold serialize_pin. now rewrite Hd, Hn. Qed.

Lemma serialize_pin_unreadable (p : Pin) :
  pin_direction p = Raise \/ pin_name p = Raise ->
  serialize_pin p = pin_fallback.
Proof.
  unfold serialize_pin. intros [H|H]; rewrite H; simpl; auto.
  destruct (pin_direction p); auto.
Qed.

Lemma pin_info_connected_to (p : Pin) (d : pystr) (n : string) :
  dict_get "connected_to" (pin_info p d n) = None.
Proof.
  unfold pin_info. destruct (get_pin_default p) as [s|]; auto.
  destruct (str_truthy s); auto.
Qed.

Lemma pin_info_direction (p : Pin) (d : pystr) (n : string) :
  dict_get "direction" (pin_info p d n) =
  Some (JStr (if is_input d then "Input" else "Output")).
Proof.
  unfold pin_info. destruct (get_pin_default p) as [s|]; auto.
  destruct (str_truthy s); auto.
Qed.



(** *** The [default] field *)




(** *** The [direction] field *)

(** C8, as written, fails: the direction of [nameless_input_pin] reads and
    holds an input marker, and the emitted direction is ["unknown"]; and a
    node fragment does carry a pin whose direction is ["unknown"]. *)
Lemma readable_direction_emitted_unknown :
  pin_direction nameless_input_pin = Ok input_direction /\
  is_input input_direction = true /\
  dict_get "direction" (serialize_pin nameless_input_pin) =
    Some (JStr "unknown") /\
  serialize_node (knot_node [target_pin]) =
    Ok [("class", JStr "K2Node_Knot"); ("name", JStr "K2Node_Knot_0");
        ("pins", JList [JDict [("name", JStr "unknown");
                               ("direction", JStr "unknown");
                               ("type", JStr "unknown")]])].
Proof. repeat split. Qed.

(** C8, amended: for every pin whose direction and name both read, the
    emitted [direction] is ["Input"] exactly when the textual form of the
    direction contains an input marker in any letter case, that is when
    its upper-casing by [str.upper] contains [INPUT], and ["Output"]
    otherwise; when the direction or the name does not read, the fragment
    is the fallback and its [direction] is ["unknown"].  No fourth value is
    emitted. *)
Theorem direction_is_input_output_or_fallback (p : Pin) :
  (forall d n,
     pin_direction p = Ok d -> pin_name p = Ok n ->
     (contains_input_marker d ->
      dict_get "direction" (serialize_pin p) = Some (JStr "Input")) /\
     (~ contains_input_marker d ->
      dict_get "direction" (serialize_pin p) = Some (JStr "Output"))) /\
  (pin_direction p = Raise \/ pin_name p = Raise ->
   dict_get "direction" (serialize_pin p) = Some (JStr "unknown")) /\
  (dict_get "direction" (serialize_pin p) = Some (JStr "Input") \/
   dict_get "direction" (serialize_pin p) = Some (JStr "Output") \/
   dict_get "direction" (serialize_pin p) = Some (JStr "unknown")).
Proof.
  assert (Hok : forall d n,
             pin_direction p = Ok d -> pin_name p = Ok n ->
             dict_get "direction" (serialize_pin p) =
             Some (JStr (if is_input d then "Input" else "Output"))).
  { intros d n Hd Hn. rewrite (serialize_pin_readable p d n Hd Hn).
    rewrite pin_links_other_key by discriminate.
    apply pin_info_direction. }
  assert (Hbad : pin_direction p = Raise \/ pin_name p = Raise ->
                 dict_get "direction" (serialize_pin p) = Some (JStr "unknown")).
  { intros H. now rewrite serialize_pin_unreadable. }
  split; [|split]; auto.
  - intros d n Hd Hn. rewrite (Hok d n Hd Hn). split; intros H.
    + apply is_input_marker in H. now rewrite H.
    + destruct (is_input d) eqn:E; auto.
      apply is_input_marker in E. contradiction.
  - destruct (pin_direction p) as [d|] eqn:Hd; auto.
    destruct (pin_name p) as [n|] eqn:Hn; auto.
    rewrite (Hok d n eq_refl eq_refl). destruct (is_input d); auto.
Qed.

(** The amended C8 at [damage_pin], whose direction holds the marker,
    and at [dotless_pin], whose direction holds it once upper-cased. *)
Lemma direction_of_damage_pin :
  pin_direction damage_pin = Ok input_direction /\
  pin_name damage_pin = Ok "Damage" /\
  contains_input_marker input_direction /\
  dict_get "direction" (serialize_pin damage_pin) = Some (JStr "Input") /\
  pin_direction dotless_pin = Ok dotless_direction /\
  pin_name dotless_pin = Ok "Amount" /\
  contains_input_marker dotless_direction /\
  dict_get "direction" (serialize_pin dotless_pin) = Some (JStr "Input").
Proof.
  assert (Hm : contains_input_marker input_direction).
  { apply is_input_marker. reflexivity. }
  assert (Hd : contains_input_marker dotless_direction).
  { apply is_input_marker. reflexivity. }
  split; [reflexivity|]. split; [reflexivity|]. split; [exact Hm|].
  split.
  { destruct (direction_is_input_output_or_fallback damage_pin) as [H _].
    destruct (H input_direction "Damage" eq_refl eq_refl) as [Hin _].
    exact (Hin Hm). }
  split; [reflexivity|]. split; [reflexivity|]. split; [exact Hd|].
  destruct (direction_is_input_output_or_fallback dotless_pin) as [H _].
  destruct (H dotless_direction "Amount" eq_refl eq_refl) as [Hin _].
  exact (Hin Hd).
Defined.

(** *** The [connected_to] field *)

(** C10: when [linked_to] reads as a list and the owner's kind tag or the
    pin name of any one endpoint in it cannot be read, the pin fragment has
    no [connected_to] field at all: it is the fragment the same pin would
    get with an empty link list, so the cross-references of the endpoints
    before the failing one are dropped with it. *)
Theorem connected_to_all_or_nothing (p : Pin) (ls : list LinkedPin)
        (l : LinkedPin) :
  pin_linked_to p = Ok ls -> In l ls ->
  lp_owner_class l = Raise \/ lp_pin_name l = Raise ->
  dict_get "connected_to" (serialize_pin p) = None /\
  serialize_pin p = serialize_pin (with_links (Ok []) p).
Proof.
  intros Hls Hin Hbad.
  assert (Hx : exists l, In l ls /\ link_text l = Raise).
  { exists l. split; auto. now apply link_text_raise. }
  destruct (pin_direction p) as [d|] eqn:Hd.
  - destruct (pin_name p) as [n|] eqn:Hn.
    + rewrite (serialize_pin_readable p d n Hd Hn).
      rewrite (serialize_pin_readable (with_links (Ok []) p) d n Hd Hn).
      rewrite (pin_links_broken p ls _ Hls Hx).
      rewrite pin_links_empty by reflexivity.
      split; [apply pin_info_connected_to | reflexivity].
    + rewrite !serialize_pin_unreadable by auto. now split.
  - rewrite !serialize_pin_unreadable by auto. now split.
Qed.

(** C10 at [half_linked_pin]: the first endpoint resolves, the second does
    not, and nothing of the first is kept. *)
Lemma connected_to_of_half_linked_pin :
  In orphan_link [health_link; orphan_link] /\
  link_text health_link = Ok "K2Node_VariableGet:Health" /\
  dict_get "connected_to" (serialize_pin half_linked_pin) = None /\
  serialize_pin half_linked_pin =
    serialize_pin (with_links (Ok []) half_linked_pin).
Proof.
  split; [simpl; auto|]. split; [reflexivity|].
  apply (connected_to_all_or_nothing half_linked_pin
           [health_link; orphan_link] orphan_link).
  - reflexivity.
  - simpl; auto.
  - left; reflexivity.
Defined.

(** ** Blocks and the keys they assign *)

Lemma exec_seq {S} (m k : M S unit) (s : S) :
  never_raises m -> exec (bind m (fun _ => k)) s = exec k (exec m s).
Proof.
  intros H. unfold exec, bind. specialize (H s).
  destruct (m s) as [s' r]. simpl in H. now subst r.
Qed.

Lemma try_pass_never_raises {S A} (m : M S A) : never_raises (try_pass m).
Proof. intros s. reflexivity. Qed.

Lemma extends_incl (A B : list string) (d d' : dict) :
  extends A d d' -> incl A B -> extends B d d'.
Proof. intros H HAB. induction H; constructor; auto. Qed.

Lemma extends_trans (A : list string) (d1 d2 d3 : dict) :
  extends A d1 d2 -> extends A d2 d3 -> extends A d1 d3.
Proof. intros H12 H23. induction H23; auto. now constructor. Qed.

Lemma extends_keys (A : list string) (d d' : dict) (k : string) :
  extends A d d' -> In k (dict_keys d') -> In k (dict_keys d) \/ In k A.
Proof.
  intros H. induction H as [|d' k0 v H IH Hk0]; auto.
  rewrite dict_keys_set. intros [->|Hin]; auto.
Qed.

Lemma extends_get (A : list string) (d d' : dict) (k : string) :
  extends A d d' -> ~ In k A -> dict_get k d' = dict_get k d.
Proof.
  intros H Hk. induction H as [|d' k0 v H IH Hk0]; auto.
  rewrite dict_get_set_other; auto. congruence.
Qed.

(** Case analysis on an innermost scrutinee of the goal. *)
Ltac break_match :=
  match goal with
  | |- context [match ?x with _ => _ end] =>
      lazymatch x with
      | context [match _ with _ => _ end] => fail
      | _ => destruct x
      end
  end.

Ltac run_block :=
  unfold exec, try_pass, bind, lift, modify, modify_or_raise, when, ret;
  repeat (simpl; break_match); simpl.

Ltac by_assignments :=
  repeat first [ apply ext_refl | apply ext_set; [ | simpl; tauto ] ].

Lemma node_comment_block_extends (node : Node) (info : dict) :
  extends ["comment"] info (exec (node_comment_block node) info).
Proof. unfold node_comment_block. run_block; by_assignments. Qed.

Lemma call_function_block_extends (node : Node) (info : dict) :
  extends ["function"; "target_class"] info
          (exec (call_function_block node) info).
Proof. unfold call_function_block. run_block; by_assignments. Qed.

Lemma variable_block_extends (node : Node) (info : dict) :
  extends ["variable"] info (exec (variable_block node) info).
Proof. unfold variable_block. run_block; by_assignments. Qed.

Lemma event_block_extends (c : string) (node : Node) (info : dict) :
  extends ["event_name"] info (exec (event_block c node) info).
Proof. unfold event_block. run_block; by_assignments. Qed.

Lemma macro_block_extends (node : Node) (info : dict) :
  extends ["macro"] info (exec (macro_block node) info).
Proof. unfold macro_block. run_block; by_assignments. Qed.

Lemma kind_block_extends (c : string) (node : Node) (info : dict) :
  extends (extension_fields c) info (exec (kind_block c node) info).
Proof.
  unfold kind_block, extension_fields.
  destruct (c =? "K2Node_CallFunction");
    [apply call_function_block_extends|].
  destruct ((c =? "K2Node_VariableGet") || (c =? "K2Node_VariableSet"));
    [apply variable_block_extends|].
  destruct ((c =? "K2Node_Event") || (c =? "K2Node_CustomEvent"));
    [apply event_block_extends|].
  destruct (c =? "K2Node_MacroInstance"); [apply macro_block_extends|].
  apply ext_refl.
Qed.

Lemma kind_block_never_raises (c : string) (node : Node) :
  never_raises (kind_block c node).
Proof.
  unfold kind_block.
  repeat match goal with
         | |- never_raises (if ?b then _ else _) => destruct b
         end;
    first [apply try_pass_never_raises | intros s; reflexivity].
Qed.

(** ** Nodes *)

Lemma pin_step_run (p : Pin) (acc : list json) :
  pin_step p acc =
  match pin_name p with
  | Ok n => if is_sentinel n then (acc, Ok tt)
            else ((acc ++ [pin_fragment p])%list, Ok tt)
  | Raise => (acc, Raise)
  end.
Proof.
  unfold pin_step, bind, lift. destruct (pin_name p) as [n|]; auto.
  destruct (is_sentinel n); reflexivity.
Qed.

Lemma pin_loop_readable (ps : list Pin) (acc : list json) :
  Forall (fun p => pin_name p <> Raise) ps ->
  for_each ps pin_step acc =
  ((acc ++ map pin_fragment (filter kept ps))%list, Ok tt).
Proof.
  intros H. revert acc. induction H as [|p ps Hp _ IH]; intros acc.
  - simpl. now rewrite app_nil_r.
  - cbn [for_each]. unfold bind. rewrite pin_step_run.
    destruct (pin_name p) as [n|] eqn:En; [|congruence].
    assert (Hk : kept p = negb (is_sentinel n))
      by (unfold kept; now rewrite En).
    cbn [filter]. rewrite Hk.
    destruct (is_sentinel n); simpl; rewrite IH; auto.
    now rewrite <- app_assoc.
Qed.

Lemma pin_loop_unreadable (ps : list Pin) (acc : list json) :
  Exists (fun p => pin_name p = Raise) ps ->
  snd (for_each ps pin_step acc) = Raise.
Proof.
  intros H. revert acc. induction H as [p ps Hp|p ps _ IH]; intros acc;
    cbn [for_each]; unfold bind; rewrite pin_step_run.
  - now rewrite Hp.
  - destruct (pin_name p) as [n|]; auto.
    destruct (is_sentinel n); apply IH.
Qed.

Lemma names_readable_or_not (ps : list Pin) :
  Forall (fun p => pin_name p <> Raise) ps \/
  Exists (fun p => pin_name p = Raise) ps.
Proof.
  induction ps as [|p ps [IH|IH]]; auto.
  destruct (pin_name p) eqn:E; auto.
  left. constructor; auto. congruence.
Qed.

Lemma pins_block_readable (node : Node) (ps : list Pin) (info : dict) :
  node_pins node = Ok ps ->
  Forall (fun p => pin_name p <> Raise) ps ->
  exec (pins_block node) info =
  match filter kept ps with
  | [] => info
  | fs => dict_set "pins" (JList (map pin_fragment fs)) info
  end.
Proof.
  intros Hps Hall. unfold pins_block, exec, try_pass, bind, lift.
  rewrite Hps. destruct ps as [|p0 ps]; auto.
  unfold with_local. rewrite (pin_loop_readable _ [] Hall). simpl app.
  destruct (filter kept (p0 :: ps)); reflexivity.
Qed.

Lemma pins_block_unreadable_name (node : Node) (ps : list Pin) (info : dict) :
  node_pins node = Ok ps ->
  Exists (fun p => pin_name p = Raise) ps ->
  exec (pins_block node) info = info.
Proof.
  intros Hps Hbad. unfold pins_block, exec, try_pass, bind, lift.
  rewrite Hps. destruct ps as [|p0 ps]; auto.
  unfold with_local. pose proof (pin_loop_unreadable _ [] Hbad) as Hr.
  destruct (for_each (p0 :: ps) pin_step []) as [pl r]. simpl in Hr.
  now subst r.
Qed.

Lemma pins_block_unreadable (node : Node) (info : dict) :
  node_pins node = Raise -> exec (pins_block node) info = info.
Proof.
  intros H. unfold pins_block, exec, try_pass, bind, lift. now rewrite H.
Qed.

(** What the pins block can do to [info]. *)
Lemma pins_block_cases (node : Node) (info : dict) :
  exec (pins_block node) info = info \/
  exists ps,
    node_pins node = Ok ps /\
    Forall (fun p => pin_name p <> Raise) ps /\
    filter kept ps <> [] /\
    exec (pins_block node) info =
      dict_set "pins" (JList (map pin_fragment (filter kept ps))) info.
Proof.
  destruct (node_pins node) as [ps|] eqn:Hps.
  - destruct (names_readable_or_not ps) as [Hall|Hbad].
    + rewrite (pins_block_readable node ps info Hps Hall).
      destruct (filter kept ps) as [|f fs] eqn:Hf; auto.
      right. exists ps. rewrite Hf. repeat split; auto. discriminate.
    + left. eapply pins_block_unreadable_name; eauto.
  - left. now apply pins_block_unreadable.
Qed.

Lemma pins_block_extends (node : Node) (info : dict) :
  extends ["pins"] info (exec (pins_block node) info).
Proof.
  destruct (pins_block_cases node info) as [->|(ps & _ & _ & _ & ->)];
    by_assignments.
Qed.

Lemma serialize_node_run (node : Node) (c n : string) :
  node_class node = Ok c -> node_name node = Ok n ->
  serialize_node node =
  Ok (exec (pins_block node) (node_info_before_pins node c n)).
Proof.
  intros Hc Hn. unfold serialize_node, node_info_before_pins.
  rewrite Hc, Hn. simpl. f_equal.
  rewrite exec_seq by apply try_pass_never_raises.
  rewrite exec_seq by apply kind_block_never_raises.
  reflexivity.
Qed.

Lemma serialize_node_inv (node : Node) (info : dict) :
  serialize_node node = Ok info ->
  exists c n,
    node_class node = Ok c /\ node_name node = Ok n /\
    info = exec (pins_block node) (node_info_before_pins node c n).
Proof.
  intros H. destruct (node_class node) as [c|] eqn:Hc.
  - destruct (node_name node) as [n|] eqn:Hn.
    + exists c, n. rewrite (serialize_node_run node c n Hc Hn) in H.
      injection H as <-. auto.
    + unfold serialize_node in H. rewrite Hc, Hn in H. discriminate.
  - unfold serialize_node in H. rewrite Hc in H. discriminate.
Qed.

Lemma node_info_before_pins_extends (node : Node) (c n : string) :
  extends ("comment" :: extension_fields c)
          [("class", JStr c); ("name", JStr n)]
          (node_info_before_pins node c n).
Proof.
  unfold node_info_before_pins.
  eapply extends_trans.
  - eapply extends_incl; [apply node_comment_block_extends|].
    intros k [<-|[]]. now left.
  - eapply extends_incl; [apply kind_block_extends|].
    intros k Hk. now right.
Qed.

Lemma extension_fields_not_pins (c : string) : ~ In "pins" (extension_fields c).
Proof.
  unfold extension_fields.
  repeat match goal with
         | |- ~ In _ (if ?b then _ else _) => destruct b
         end; simpl; intuition discriminate.
Qed.

Lemma node_info_before_pins_no_pins (node : Node) (c n : string) :
  dict_get "pins" (node_info_before_pins node c n) = None.
Proof.
  rewrite (extends_get _ _ _ "pins" (node_info_before_pins_extends node c n)).
  - reflexivity.
  - intros [H|H]; [discriminate|]. now apply extension_fields_not_pins in H.
Qed.

(** *** Extension fields *)

Lemma extension_fields_in (c k : string) :
  In k (extension_fields c) ->
  ((k = "function" \/ k = "target_class") /\ c = "K2Node_CallFunction") \/
  (k = "variable" /\ (c = "K2Node_VariableGet" \/ c = "K2Node_VariableSet")) \/
  (k = "event_name" /\ (c = "K2Node_Event" \/ c = "K2Node_CustomEvent")) \/
  (k = "macro" /\ c = "K2Node_MacroInstance").
Proof.
  unfold extension_fields.
  destruct (c =? "K2Node_CallFunction") eqn:E1.
  { apply String.eqb_eq in E1. simpl. intuition auto. }
  destruct ((c =? "K2Node_VariableGet") || (c =? "K2Node_VariableSet")) eqn:E2.
  { apply orb_true_iff in E2. rewrite !String.eqb_eq in E2.
    simpl. intuition auto. }
  destruct ((c =? "K2Node_Event") || (c =? "K2Node_CustomEvent")) eqn:E3.
  { apply orb_true_iff in E3. rewrite !String.eqb_eq in E3.
    simpl. intuition auto. }
  destruct (c =? "K2Node_MacroInstance") eqn:E4.
  { apply String.eqb_eq in E4. simpl. intuition auto. }
  intros [].
Qed.

Lemma extension_fields_unrecognized (c : string) :
  ~ In c recognized_kinds -> extension_fields c = [].
Proof.
  intros Hc. destruct (extension_fields c) as [|k ks] eqn:E; auto.
  exfalso. apply Hc.
  destruct (extension_fields_in c k) as [[_ ->] | [[_ [-> | ->]] | [[_ [-> | ->]] | [_ ->]]]];
    [rewrite E; now left | | | | | |]; simpl; auto 10.
Qed.

(** C7: in the fragment of any node, every key is a base field or an
    extension field of the node's own kind tag.  So a node whose kind tag
    is not one of the six recognized ones has only the base fields [class],
    [name], [comment] and [pins]; and [function] and [target_class] occur
    only under the call-function tag, [variable] only under variable-get
    or variable-set, [event_name] only under event or custom-event, and
    [macro] only under macro-instance. *)
Theorem extension_fields_only_on_matching_kind (node : Node) (info : dict) :
  serialize_node node = Ok info ->
  exists c,
    node_class node = Ok c /\
    dict_get "class" info = Some (JStr c) /\
    (forall k, In k (dict_keys info) ->
               In k base_fields \/ In k (extension_fields c)) /\
    (~ In c recognized_kinds ->
     forall k, In k (dict_keys info) -> In k base_fields) /\
    (In "function" (dict_keys info) \/ In "target_class" (dict_keys info) ->
     c = "K2Node_CallFunction") /\
    (In "variable" (dict_keys info) ->
     c = "K2Node_VariableGet" \/ c = "K2Node_VariableSet") /\
    (In "event_name" (dict_keys info) ->
     c = "K2Node_Event" \/ c = "K2Node_CustomEvent") /\
    (In "macro" (dict_keys info) -> c = "K2Node_MacroInstance").
Proof.
  intros H. destruct (serialize_node_inv node info H) as (c & n & Hc & Hn & ->).
  exists c.
  assert (Hext : extends ("pins" :: "comment" :: extension_fields c)
                   [("class", JStr c); ("name", JStr n)]
                   (exec (pins_block node) (node_info_before_pins node c n))).
  { eapply extends_trans.
    - eapply extends_incl; [apply node_info_before_pins_extends|].
      intros k Hk. now right.
    - eapply extends_incl; [apply pins_block_extends|].
      intros k [<-|[]]. now left. }
  set (out := exec (pins_block node) (node_info_before_pins node c n)) in *.
  assert (Hkeys : forall k, In k (dict_keys out) ->
                            In k base_fields \/ In k (extension_fields c)).
  { intros k Hk. destruct (extends_keys _ _ _ k Hext Hk) as [Hb|Hb].
    - left. simpl in Hb. simpl. tauto.
    - destruct Hb as [<-|[<-|Hb]]; simpl; auto 10. }
  assert (Hfield : forall k, In k (dict_keys out) -> ~ In k base_fields ->
                             In k (extension_fields c)).
  { intros k Hk Hnb. destruct (Hkeys k Hk); tauto. }
  split; [exact Hc|]. split.
  { rewrite (extends_get _ _ _ "class" Hext); [reflexivity|].
    intros [E|[E|E]]; try discriminate.
    apply extension_fields_in in E.
    destruct E as [[[E|E] _]|[[E _]|[[E _]|[E _]]]]; discriminate. }
  split; [exact Hkeys|]. split.
  { intros Hun k Hk. destruct (Hkeys k Hk) as [Hb|Hb]; auto.
    rewrite (extension_fields_unrecognized c Hun) in Hb. destruct Hb. }
  assert (Hnb : forall k, k <> "class" -> k <> "name" -> k <> "comment" ->
                          k <> "pins" -> ~ In k base_fields).
  { intros k H1 H2 H3 H4. simpl. intuition congruence. }
  repeat split.
  - intros [Hk|Hk];
      apply Hfield in Hk; try (apply Hnb; discriminate);
      apply extension_fields_in in Hk;
      destruct Hk as [[_ E]|[[E _]|[[E _]|[E _]]]]; auto; discriminate.
  - intros Hk. apply Hfield in Hk; try (apply Hnb; discriminate).
    apply extension_fields_in in Hk.
    destruct Hk as [[[E|E] _]|[[_ E]|[[E _]|[E _]]]]; auto; discriminate.
  - intros Hk. apply Hfield in Hk; try (apply Hnb; discriminate).
    apply extension_fields_in in Hk.
    destruct Hk as [[[E|E] _]|[[E _]|[[_ E]|[E _]]]]; auto; discriminate.
  - intros Hk. apply Hfield in Hk; try (apply Hnb; discriminate).
    apply extension_fields_in in Hk.
    destruct Hk as [[[E|E] _]|[[E _]|[[E _]|[_ E]]]]; auto; discriminate.
Qed.

(** C7 at [print_node], a call-function node carrying both of its
    extension fields. *)
Lemma extension_fields_of_print_node :
  exists info c,
    serialize_node print_node = Ok info /\
    node_class print_node = Ok c /\
    dict_get "class" info = Some (JStr c) /\
    In "function" (dict_keys info) /\
    c = "K2Node_CallFunction" /\
    (forall k, In k (dict_keys info) ->
               In k base_fields \/ In k (extension_fields c)).
Proof.
  eexists.
  destruct (extension_fields_only_on_matching_kind print_node _ eq_refl)
    as (c & Hc & Hcls & Hkeys & _ & Hfun & _).
  exists c. split; [reflexivity|]. split; [exact Hc|]. split; [exact Hcls|].
  assert (Hin : In "function"
                   (dict_keys
                      [("class", JStr "K2Node_CallFunction");
                       ("name", JStr "K2Node_CallFunction_3");
                       ("comment", JStr "log it");
                       ("function", JStr "PrintString");
                       ("target_class", JStr "KismetSystemLibrary");
                       ("pins", JList [pin_fragment damage_pin])])).
  { simpl. auto 10. }
  split; [exact Hin|]. split; [apply Hfun; left; exact Hin|exact Hkeys].
Defined.

(** *** The [pins] field *)

Lemma is_sentinel_iff (n : string) :
  is_sentinel n = true <-> n = "execute" \/ n = "then" \/ n = "".
Proof.
  unfold is_sentinel. rewrite !orb_true_iff, !String.eqb_eq. tauto.
Qed.

Lemma kept_iff (p : Pin) :
  kept p = true <->
  exists n, pin_name p = Ok n /\ n <> "execute" /\ n <> "then" /\ n <> "".
Proof.
  unfold kept. destruct (pin_name p) as [n|].
  - rewrite negb_true_iff. split.
    + intros H. exists n. split; auto.
      repeat split; intros ->; discriminate.
    + intros (n' & [= <-] & H1 & H2 & H3).
      destruct (is_sentinel n) eqn:E; auto.
      apply is_sentinel_iff in E. tauto.
  - split; [discriminate | intros (n & H & _); discriminate].
Qed.

Lemma pin_info_name (p : Pin) (d : pystr) (n : string) :
  dict_get "name" (pin_info p d n) = Some (JStr n).
Proof.
  unfold pin_info. destruct (get_pin_default p) as [s|]; auto.
  destruct (str_truthy s); auto.
Qed.

(** The name a kept pin shows in its fragment is never a sentinel. *)
Lemma kept_fragment_name (p : Pin) :
  kept p = true ->
  exists n, dict_get "name" (serialize_pin p) = Some (JStr n) /\
            is_sentinel n = false.
Proof.
  unfold kept. destruct (pin_name p) as [n|] eqn:Hn; [|discriminate].
  rewrite negb_true_iff. intros Hs.
  destruct (pin_direction p) as [d|] eqn:Hd.
  - exists n. rewrite (serialize_pin_readable p d n Hd Hn).
    rewrite pin_links_other_key by discriminate.
    now rewrite pin_info_name.
  - exists "unknown". rewrite serialize_pin_unreadable by auto. now split.
Qed.

(** X26: in the [pins] list of any node fragment no entry is named
    ["execute"], ["then"] or [""].  When the pin collection and every pin
    name in it read, the [pins] field is the list of the fragments of the
    pins that pass the name filter, in the order of the collection, and it
    is left out when no pin passes; a pin passes exactly when its name is
    none of the three. *)
Theorem sentinel_pins_are_filtered (node : Node) (info : dict) :
  serialize_node node = Ok info ->
  (forall frags f,
     dict_get "pins" info = Some (JList frags) -> In f frags ->
     exists d n, f = JDict d /\ dict_get "name" d = Some (JStr n) /\
                 n <> "execute" /\ n <> "then" /\ n <> "") /\
  (forall ps,
     node_pins node = Ok ps ->
     Forall (fun p => pin_name p <> Raise) ps ->
     dict_get "pins" info =
       match filter kept ps with
       | [] => None
       | fs => Some (JList (map pin_fragment fs))
       end /\
     (forall p, In p (filter kept ps) <->
                In p ps /\
                exists n, pin_name p = Ok n /\
                          n <> "execute" /\ n <> "then" /\ n <> "")).
Proof.
  intros H. destruct (serialize_node_inv node info H) as (c & n & Hc & Hn & ->).
  split.
  - intros frags f Hget Hf.
    destruct (pins_block_cases node (node_info_before_pins node c n))
      as [E|(ps & _ & _ & _ & E)]; rewrite E in Hget.
    + rewrite node_info_before_pins_no_pins in Hget. discriminate.
    + rewrite dict_get_set_same in Hget. injection Hget as <-.
      apply in_map_iff in Hf. destruct Hf as (p & <- & Hp).
      apply filter_In in Hp. destruct Hp as [_ Hk].
      destruct (kept_fragment_name p Hk) as (m & Hm & Hs).
      exists (serialize_pin p), m. split; [reflexivity|]. split; [exact Hm|].
      repeat split; intros ->; discriminate.
  - intros ps Hps Hall. split.
    + rewrite (pins_block_readable node ps _ Hps Hall).
      destruct (filter kept ps) as [|f fs].
      * apply node_info_before_pins_no_pins.
      * apply dict_get_set_same.
    + intros p. rewrite filter_In, kept_iff. reflexivity.
Qed.

(** At [print_node]: [execute] is dropped, [Damage] stays. *)
Lemma pins_of_print_node :
  serialize_node print_node =
    Ok [("class", JStr "K2Node_CallFunction");
        ("name", JStr "K2Node_CallFunction_3");
        ("comment", JStr "log it");
        ("function", JStr "PrintString");
        ("target_class", JStr "KismetSystemLibrary");
        ("pins", JList [pin_fragment damage_pin])] /\
  node_pins print_node = Ok [exec_pin; damage_pin] /\
  Forall (fun p => pin_name p <> Raise) [exec_pin; damage_pin] /\
  dict_get "pins"
    [("class", JStr "K2Node_CallFunction");
     ("name", JStr "K2Node_CallFunction_3");
     ("comment", JStr "log it");
     ("function", JStr "PrintString");
     ("target_class", JStr "KismetSystemLibrary");
     ("pins", JList [pin_fragment damage_pin])] =
    Some (JList [pin_fragment damage_pin]).
Proof.
  assert (Hall : Forall (fun p => pin_name p <> Raise) [exec_pin; damage_pin])
    by (repeat constructor; discriminate).
  split; [reflexivity|]. split; [reflexivity|]. split; [exact Hall|].
  destruct (sentinel_pins_are_filtered print_node _ eq_refl) as [_ Hpins].
  destruct (Hpins [exec_pin; damage_pin] eq_refl Hall) as [Hget _].
  exact Hget.
Defined.

(** Without name failures, a pin that passes the filter keeps its slot:
    when its own serialization fails, the slot holds the fallback. *)
Lemma fallback_keeps_slot (node : Node) (info : dict) (ps : list Pin) :
  serialize_node node = Ok info ->
  node_pins node = Ok ps ->
  Forall (fun p => pin_name p <> Raise) ps ->
  forall p, In p ps -> kept p = true -> pin_direction p = Raise ->
  exists frags, dict_get "pins" info = Some (JList frags) /\
                In (JDict pin_fallback) frags.
Proof.
  intros H Hps Hall p Hin Hk Hd.
  destruct (serialize_node_inv node info H) as (c & n & Hc & Hn & ->).
  rewrite (pins_block_readable node ps _ Hps Hall).
  assert (Hf : In p (filter kept ps)) by (apply filter_In; auto).
  destruct (filter kept ps) as [|f fs] eqn:E; [destruct Hf|].
  exists (map pin_fragment (f :: fs)). split; [apply dict_get_set_same|].
  apply in_map_iff. exists p. split; auto.
  unfold pin_fragment. now rewrite serialize_pin_unreadable by auto.
Qed.

(** One unreadable pin name empties the whole field. *)
Lemma unreadable_name_drops_pins (node : Node) (info : dict) (ps : list Pin) :
  serialize_node node = Ok info ->
  node_pins node = Ok ps ->
  Exists (fun p => pin_name p = Raise) ps ->
  dict_get "pins" info = None.
Proof.
  intros H Hps Hbad.
  destruct (serialize_node_inv node info H) as (c & n & Hc & Hn & ->).
  rewrite (pins_block_unreadable_name node ps _ Hps Hbad).
  apply node_info_before_pins_no_pins.
Qed.

(** C5 fails on the code.  [target_pin] passes the name filter and its
    serialization fails; alone in its node it gets the fallback slot.  Put
    next to [null_pin], whose name cannot be read, the slot is lost: the
    node fragment has no [pins] field at all, and the same happens to a
    node whose only pin is [null_pin]. *)
Theorem pin_slot_lost_on_unreadable_name :
  serialize_node (knot_node [target_pin]) =
    Ok [("class", JStr "K2Node_Knot"); ("name", JStr "K2Node_Knot_0");
        ("pins", JList [JDict pin_fallback])] /\
  serialize_node (knot_node [target_pin; null_pin]) =
    Ok [("class", JStr "K2Node_Knot"); ("name", JStr "K2Node_Knot_0")] /\
  serialize_node (knot_node [null_pin]) =
    Ok [("class", JStr "K2Node_Knot"); ("name", JStr "K2Node_Knot_0")].
Proof. repeat split. Qed.

(** C6 fails on the code.  [damage_pin] is named [Damage], none of the
    three excluded names, and alone in its node it is serialized; put
    before [null_pin], whose name cannot be read, it is not serialized at
    all: the node fragment has no [pins] field. *)
Theorem readable_pin_lost_beside_null_pin :
  pin_name damage_pin = Ok "Damage" /\
  is_sentinel "Damage" = false /\
  pin_name null_pin = Raise /\
  serialize_node (knot_node [damage_pin]) =
    Ok [("class", JStr "K2Node_Knot"); ("name", JStr "K2Node_Knot_0");
        ("pins",
         JList [JDict [("name", JStr "Damage"); ("direction", JStr "Input");
                       ("type", JStr "float"); ("default", JStr "5.0");
                       ("connected_to",
                        JList [JStr "K2Node_VariableGet:Health"])]])] /\
  serialize_node (knot_node [damage_pin; null_pin]) =
    Ok [("class", JStr "K2Node_Knot"); ("name", JStr "K2Node_Knot_0")].
Proof. repeat split. Qed.

(** ** Graphs *)

Lemma node_step_run (node : Node) (acc : list json) :
  node_step node acc =
  match serialize_node node with
  | Ok info => ((acc ++ [JDict info])%list, Ok tt)
  | Raise => (acc, Raise)
  end.
Proof. unfold node_step, bind, lift. now destruct (serialize_node node). Qed.

Lemma node_loop_complete (ns : list Node) (ds : list dict) (acc : list json) :
  Forall2 (fun n d => serialize_node n = Ok d) ns ds ->
  for_each ns node_step acc = ((acc ++ map JDict ds)%list, Ok tt).
Proof.
  intros H. revert acc. induction H as [|n d ns ds Hn _ IH]; intros acc.
  - simpl. now rewrite app_nil_r.
  - cbn [for_each]. unfold bind. rewrite node_step_run, Hn, IH.
    simpl. now rewrite <- app_assoc.
Qed.

(** The node loop stops at the first node whose serialization raises;
    the nodes after it are never looked at. *)
Lemma node_loop_truncated (before after : list Node) (bad : Node)
      (ds : list dict) (acc : list json) :
  Forall2 (fun n d => serialize_node n = Ok d) before ds ->
  serialize_node bad = Raise ->
  for_each (before ++ bad :: after)%list node_step acc =
  ((acc ++ map JDict ds)%list, Raise).
Proof.
  intros H Hbad. revert acc. induction H as [|n d ns ds Hn _ IH]; intros acc.
  - simpl. unfold bind. rewrite node_step_run, Hbad. now rewrite app_nil_r.
  - simpl app. cbn [for_each]. unfold bind. rewrite node_step_run, Hn, IH.
    simpl. now rewrite <- app_assoc.
Qed.

Lemma graph_nodes_truncated (g : Graph) (before after : list Node)
      (bad : Node) (ds : list dict) :
  graph_nodes g = Ok (before ++ bad :: after)%list ->
  Forall2 (fun n d => serialize_node n = Ok d) before ds ->
  serialize_node bad = Raise ->
  exec (nodes_block g) [] = map JDict ds.
Proof.
  intros Hg H Hbad. unfold nodes_block, exec, try_pass, bind, lift.
  rewrite Hg. now rewrite (node_loop_truncated _ _ _ _ [] H Hbad).
Qed.

Lemma nodes_block_empty (g : Graph) :
  graph_nodes g = Raise \/ graph_nodes g = Ok [] ->
  exec (nodes_block g) [] = [].
Proof.
  unfold nodes_block, exec, try_pass, bind, lift. intros [H|H]; now rewrite H.
Qed.

Lemma serialize_graph_inv (g : Graph) (d : dict) :
  serialize_graph g = Ok d ->
  exists n,
    graph_name g = Ok n /\
    d = dict_set "nodes" (JList (exec (nodes_block g) []))
          match graph_class g with
          | Ok c => dict_set "class" (JStr c) [("name", JStr n)]
          | Raise => [("name", JStr n)]
          end.
Proof.
  unfold serialize_graph. destruct (graph_name g) as [n|]; simpl.
  - intros [= <-]. now exists n.
  - discriminate.
Qed.

Lemma serialize_graph_nodes (g : Graph) (d : dict) :
  serialize_graph g = Ok d ->
  dict_get "nodes" d = Some (JList (exec (nodes_block g) [])).
Proof.
  intros H. destruct (serialize_graph_inv g d H) as (n & _ & ->).
  apply dict_get_set_same.
Qed.

(** C4 fails on the code.  The second node of [torn_graph] is null, so its
    identity reads raise; [print_node], which comes after it and
    serializes on its own, is missing from the graph's [nodes]. *)
Theorem null_node_drops_later_nodes :
  graph_nodes torn_graph = Ok [knot_node []; null_node; print_node] /\
  serialize_node null_node = Raise /\
  (exists info, serialize_node print_node = Ok info) /\
  serialize_graph torn_graph =
    Ok [("name", JStr "EventGraph"); ("class", JStr "EdGraph");
        ("nodes", JList [JDict [("class", JStr "K2Node_Knot");
                                ("name", JStr "K2Node_Knot_0")]])].
Proof.
  split; [reflexivity|]. split; [reflexivity|]. split; [|reflexivity].
  eexists. reflexivity.
Qed.

(** ** The orchestrator *)

Lemma for_each_extends {X} (A : list string) (body : X -> M dict unit) :
  (forall x s, extends A s (exec (body x) s)) ->
  forall xs s, extends A s (exec (for_each xs body) s).
Proof.
  intros Hbody xs. induction xs as [|x xs IH]; intros s.
  - apply ext_refl.
  - cbn [for_each]. unfold exec, bind.
    pose proof (Hbody x s) as Hx. unfold exec in Hx.
    destruct (body x s) as [s' [[]|]]; simpl in *; auto.
    eapply extends_trans; [exact Hx | apply IH].
Qed.

Lemma generated_class_block_extends (asset : Blueprint) (result : dict) :
  extends ["generated_class"; "parent_class"] result
          (exec (generated_class_block asset) result).
Proof. unfold generated_class_block. run_block; by_assignments. Qed.

Lemma blueprint_type_block_extends (asset : Blueprint) (result : dict) :
  extends ["blueprint_type"] result (exec (blueprint_type_block asset) result).
Proof. unfold blueprint_type_block. run_block; by_assignments. Qed.

Lemma interface_step_extends (iface : Interface) (result : dict) :
  extends ["interfaces"] result (exec (interface_step iface) result).
Proof.
  unfold interface_step, dict_append. run_block;
    try match goal with H : Ok _ = Ok _ |- _ => injection H as <- end;
    by_assignments.
Qed.

Lemma interfaces_block_extends (asset : Blueprint) (result : dict) :
  extends ["interfaces"] result (exec (interfaces_block asset) result).
Proof.
  unfold interfaces_block, exec, try_pass, bind, lift, modify.
  destruct (implemented_interfaces asset) as [[|i rest]|]; simpl;
    try apply ext_refl.
  pose proof (for_each_extends ["interfaces"] interface_step
                interface_step_extends (i :: rest)
                (dict_set "interfaces" (JList []) result)) as H.
  unfold exec in H.
  eapply extends_trans; [|exact H]. by_assignments.
Qed.

Lemma variables_block_extends (asset : Blueprint) (result : dict) :
  extends ["variables"] result (exec (variables_block asset) result).
Proof. unfold variables_block. run_block; by_assignments. Qed.

Lemma asset_info_before_graphs_extends (asset : Blueprint) (n p : string) :
  extends asset_fields [("name", JStr n); ("path", JStr p)]
          (asset_info_before_graphs asset n p).
Proof.
  unfold asset_info_before_graphs.
  rewrite !exec_seq by (intros s; reflexivity).
  assert (H : extends asset_fields [("name", JStr n); ("path", JStr p)]
                (exec (variables_block asset)
                   (exec (interfaces_block asset)
                      (exec (blueprint_type_block asset)
                         (exec (generated_class_block asset)
                            [("name", JStr n); ("path", JStr p)]))))).
  { repeat (eapply extends_trans;
            [|eapply extends_incl;
              [first [apply variables_block_extends
                     |apply interfaces_block_extends
                     |apply blueprint_type_block_extends
                     |apply generated_class_block_extends]
              |intros k Hk; simpl in *; tauto]]).
    apply ext_refl. }
  destruct (get_components asset); auto.
  apply ext_set; [exact H | simpl; tauto].
Qed.

Lemma blueprint_to_text_run (load_asset : string -> option Asset)
      (asset_path : string) (asset : Blueprint) (n p : string) :
  load_asset asset_path = Some (BlueprintAsset asset) ->
  bp_get_name asset = Ok n -> bp_get_path_name asset = Ok p ->
  blueprint_to_text load_asset asset_path =
  Ok match asset_graphs asset with
     | [] => asset_info_before_graphs asset n p
     | graphs =>
         dict_set "graphs" (JList graphs) (asset_info_before_graphs asset n p)
     end.
Proof.
  intros Hl Hn Hp. unfold blueprint_to_text. rewrite Hl, Hn, Hp.
  unfold rbind. cbv zeta. fold (asset_graphs asset).
  unfold asset_info_before_graphs.
  destruct (asset_graphs asset); destruct (get_components asset);
    reflexivity.
Qed.

Lemma blueprint_to_text_inv (load_asset : string -> option Asset)
      (asset_path : string) (asset : Blueprint) (result : dict) :
  load_asset asset_path = Some (BlueprintAsset asset) ->
  blueprint_to_text load_asset asset_path = Ok result ->
  exists n p,
    bp_get_name asset = Ok n /\ bp_get_path_name asset = Ok p /\
    result = match asset_graphs asset with
             | [] => asset_info_before_graphs asset n p
             | graphs =>
                 dict_set "graphs" (JList graphs)
                          (asset_info_before_graphs asset n p)
             end.
Proof.
  intros Hl H. destruct (bp_get_name asset) as [n|] eqn:Hn.
  - destruct (bp_get_path_name asset) as [p|] eqn:Hp.
    + rewrite (blueprint_to_text_run _ _ _ n p Hl Hn Hp) in H.
      injection H as <-. now exists n, p.
    + unfold blueprint_to_text in H. rewrite Hl, Hn, Hp in H. discriminate.
  - unfold blueprint_to_text in H. rewrite Hl, Hn in H. discriminate.
Qed.

(** The document of a Blueprint has [name], [path], the asset fields and
    [graphs], and nothing else. *)
Lemma blueprint_document_keys (load_asset : string -> option Asset)
      (asset_path : string) (asset : Blueprint) (result : dict) (k : string) :
  load_asset asset_path = Some (BlueprintAsset asset) ->
  blueprint_to_text load_asset asset_path = Ok result ->
  In k (dict_keys result) ->
  In k ("name" :: "path" :: "graphs" :: asset_fields).
Proof.
  intros Hl H Hk.
  destruct (blueprint_to_text_inv _ _ _ _ Hl H) as (n & p & _ & _ & ->).
  pose proof (asset_info_before_graphs_extends asset n p) as Hext.
  assert (Hin : In k (dict_keys (asset_info_before_graphs asset n p)) ->
                In k ("name" :: "path" :: "graphs" :: asset_fields)).
  { intros Hk'. destruct (extends_keys _ _ _ k Hext Hk') as [Hb|Hb].
    - simpl in Hb. simpl. tauto.
    - simpl in Hb. simpl. tauto. }
  destruct (asset_graphs asset); auto.
  apply dict_keys_set in Hk. destruct Hk as [->|Hk]; auto.
  simpl. tauto.
Qed.

(** *** Error documents *)

(** C1: when the path resolves to nothing the result is the document
    [{"error": "Asset not found: <path>"}]; when it resolves to an object
    that is not a Blueprint and whose kind tag reads as [kind], the result
    is [{"error": "Asset is not a Blueprint: <path> (class: <kind>)"}]; and
    a returned document has an [error] key only in these two cases, where
    it is its only key. *)
Theorem error_documents (load_asset : string -> option Asset)
        (asset_path : string) :
  (load_asset asset_path = None ->
   blueprint_to_text load_asset asset_path =
     Ok [("error", JStr ("Asset not found: " ++ asset_path))]) /\
  (forall kind,
     load_asset asset_path = Some (OtherAsset (Ok kind)) ->
     blueprint_to_text load_asset asset_path =
       Ok [("error", JStr ("Asset is not a Blueprint: " ++ asset_path
                           ++ " (class: " ++ kind ++ ")"))]) /\
  (forall doc,
     blueprint_to_text load_asset asset_path = Ok doc ->
     In "error" (dict_keys doc) ->
     dict_keys doc = ["error"] /\
     (load_asset asset_path = None \/
      exists cls, load_asset asset_path = Some (OtherAsset cls))).
Proof.
  split; [|split].
  - intros H. unfold blueprint_to_text. now rewrite H.
  - intros kind H. unfold blueprint_to_text. now rewrite H.
  - intros doc H Herr.
    destruct (load_asset asset_path) as [[cls|bp]|] eqn:Hl.
    + unfold blueprint_to_text in H. rewrite Hl in H.
      destruct cls as [c|]; simpl in H; [|discriminate].
      injection H as <-. split; [reflexivity|]. right. now exists (Ok c).
    + exfalso.
      pose proof (blueprint_document_keys _ _ _ _ "error" Hl H Herr) as Hk.
      simpl in Hk. intuition discriminate.
    + unfold blueprint_to_text in H. rewrite Hl in H.
      injection H as <-. split; [reflexivity|]. now left.
Qed.

(** C1 on the sample directory: a missing path and a static mesh. *)
Lemma error_documents_of_sample_directory :
  sample_load_asset "/Game/Missing" = None /\
  blueprint_to_text sample_load_asset "/Game/Missing" =
    Ok [("error", JStr "Asset not found: /Game/Missing")] /\
  sample_load_asset "/Game/SM_Rock" = Some (OtherAsset (Ok "StaticMesh")) /\
  blueprint_to_text sample_load_asset "/Game/SM_Rock" =
    Ok [("error",
         JStr "Asset is not a Blueprint: /Game/SM_Rock (class: StaticMesh)")].
Proof.
  split; [reflexivity|]. split.
  - destruct (error_documents sample_load_asset "/Game/Missing") as [H _].
    exact (H eq_refl).
  - split; [reflexivity|].
    destruct (error_documents sample_load_asset "/Game/SM_Rock") as (_ & H & _).
    exact (H "StaticMesh" eq_refl).
Defined.

(** *** The [graphs] field *)

Lemma graph_step_run (tag : string) (g : Graph) (acc : list json) :
  graph_step tag g acc =
  match serialize_graph g with
  | Ok d => ((acc ++ [stamp tag d])%list, Ok tt)
  | Raise => (acc, Raise)
  end.
Proof. unfold graph_step, bind, lift. now destruct (serialize_graph g). Qed.

Lemma graph_loop_complete (tag : string) (gs : list Graph) (ds : list dict)
      (acc : list json) :
  Forall2 (fun g d => serialize_graph g = Ok d) gs ds ->
  for_each gs (graph_step tag) acc = ((acc ++ map (stamp tag) ds)%list, Ok tt).
Proof.
  intros H. revert acc. induction H as [|g d gs ds Hg _ IH]; intros acc.
  - simpl. now rewrite app_nil_r.
  - cbn [for_each]. unfold bind. rewrite graph_step_run, Hg, IH.
    simpl. now rewrite <- app_assoc.
Qed.

Lemma graphs_block_complete (tag : string) (pages : read (list Graph))
      (ds : list dict) (acc : list json) :
  Forall2 (fun g d => serialize_graph g = Ok d) (graphs_of pages) ds ->
  exec (graphs_block tag pages) acc = (acc ++ map (stamp tag) ds)%list.
Proof.
  intros H. unfold graphs_block, exec, try_pass, bind, lift.
  destruct pages as [gs|]; simpl in *.
  - now rewrite (graph_loop_complete tag gs ds acc H).
  - inversion H. simpl. now rewrite app_nil_r.
Qed.

Lemma asset_graphs_complete (asset : Blueprint) (es fs ms : list dict) :
  Forall2 (fun g d => serialize_graph g = Ok d)
          (graphs_of (ubergraph_pages asset)) es ->
  Forall2 (fun g d => serialize_graph g = Ok d)
          (graphs_of (function_graphs asset)) fs ->
  Forall2 (fun g d => serialize_graph g = Ok d)
          (graphs_of (macro_graphs asset)) ms ->
  asset_graphs asset =
  (map (stamp "EventGraph") es ++ map (stamp "Function") fs
   ++ map (stamp "Macro") ms)%list.
Proof.
  intros He Hf Hm. unfold asset_graphs.
  rewrite !exec_seq by (intros s; reflexivity).
  rewrite (graphs_block_complete _ _ es [] He).
  rewrite (graphs_block_complete _ _ fs _ Hf).
  rewrite (graphs_block_complete _ _ ms _ Hm).
  simpl. now rewrite app_assoc.
Qed.

Lemma asset_info_before_graphs_no_graphs (asset : Blueprint) (n p : string) :
  dict_get "graphs" (asset_info_before_graphs asset n p) = None.
Proof.
  rewrite (extends_get _ _ _ "graphs"
             (asset_info_before_graphs_extends asset n p)).
  - reflexivity.
  - simpl. intuition discriminate.
Qed.

(** When every graph of a Blueprint serializes: let [es], [fs] and
    [ms] be the fragments of its event, function and macro graphs (a
    collection that cannot be read has no graphs).  Then [graphs] is the
    list of [es] stamped ["EventGraph"], then [fs] stamped ["Function"],
    then [ms] stamped ["Macro"], and the field is left out when that list
    is empty.  Every graph fragment, stamped or not, has a [nodes] list,
    which is empty when the graph's node collection is empty or cannot be
    read. *)
Theorem graphs_in_fixed_order (load_asset : string -> option Asset)
        (asset_path : string) (asset : Blueprint) (result : dict)
        (es fs ms : list dict) :
  load_asset asset_path = Some (BlueprintAsset asset) ->
  blueprint_to_text load_asset asset_path = Ok result ->
  Forall2 (fun g d => serialize_graph g = Ok d)
          (graphs_of (ubergraph_pages asset)) es ->
  Forall2 (fun g d => serialize_graph g = Ok d)
          (graphs_of (function_graphs asset)) fs ->
  Forall2 (fun g d => serialize_graph g = Ok d)
          (graphs_of (macro_graphs asset)) ms ->
  dict_get "graphs" result =
    match (map (stamp "EventGraph") es ++ map (stamp "Function") fs
           ++ map (stamp "Macro") ms)%list with
    | [] => None
    | graphs => Some (JList graphs)
    end /\
  (forall g d tag,
     serialize_graph g = Ok d ->
     exists nodes,
       dict_get "nodes" d = Some (JList nodes) /\
       dict_get "nodes" (dict_set "graph_type" (JStr tag) d) =
         Some (JList nodes) /\
       dict_get "graph_type" (dict_set "graph_type" (JStr tag) d) =
         Some (JStr tag) /\
       (graph_nodes g = Raise \/ graph_nodes g = Ok [] -> nodes = [])).
Proof.
  intros Hl H He Hf Hm. split.
  - destruct (blueprint_to_text_inv _ _ _ _ Hl H) as (n & p & _ & _ & ->).
    rewrite (asset_graphs_complete asset es fs ms He Hf Hm).
    destruct (map (stamp "EventGraph") es ++ _)%list.
    + apply asset_info_before_graphs_no_graphs.
    + apply dict_get_set_same.
  - intros g d tag Hg. exists (exec (nodes_block g) []).
    pose proof (serialize_graph_nodes g d Hg) as Hn.
    split; [exact Hn|]. split.
    + rewrite dict_get_set_other by discriminate. exact Hn.
    + split; [apply dict_get_set_same | apply nodes_block_empty].
Qed.

(** At the door Blueprint: one event graph, one function graph, macro
    graphs unreadable. *)
Lemma graphs_of_door_blueprint :
  exists result,
    sample_load_asset "/Game/BP_Door" =
      Some (BlueprintAsset (door_blueprint [stale_interface])) /\
    blueprint_to_text sample_load_asset "/Game/BP_Door" = Ok result /\
    dict_get "graphs" result =
      Some (JList
              [JDict [("name", JStr "EventGraph"); ("class", JStr "EdGraph");
                      ("nodes", JList []);
                      ("graph_type", JStr "EventGraph")];
               JDict [("name", JStr "Open"); ("class", JStr "EdGraph");
                      ("nodes", JList []);
                      ("graph_type", JStr "Function")]]).
Proof.
  eexists. split; [reflexivity|]. split; [reflexivity|].
  refine (proj1 (graphs_in_fixed_order sample_load_asset "/Game/BP_Door"
                   (door_blueprint [stale_interface]) _
                   [ [("name", JStr "EventGraph"); ("class", JStr "EdGraph");
                      ("nodes", JList [])] ]
                   [ [("name", JStr "Open"); ("class", JStr "EdGraph");
                      ("nodes", JList [])] ]
                   []
                   eq_refl eq_refl _ _ _)).
  - repeat constructor.
  - repeat constructor.
  - constructor.
Defined.

(** C9 fails on the code.  The function graphs of [shed_blueprint] are
    [Open], a null entry and [Close]; [Close] serializes on its own, and
    the [graphs] of the document go from [Open] straight to the macro
    graph: the function graph [Close] is missing. *)
Theorem null_graph_drops_later_graphs :
  function_graphs shed_blueprint =
    Ok [empty_graph "Open"; null_graph; empty_graph "Close"] /\
  serialize_graph null_graph = Raise /\
  serialize_graph (empty_graph "Close") =
    Ok [("name", JStr "Close"); ("class", JStr "EdGraph");
        ("nodes", JList [])] /\
  blueprint_to_text shed_load_asset "/Game/BP_Shed" =
    Ok [("name", JStr "BP_Shed");
        ("path", JStr "/Game/BP_Shed.BP_Shed");
        ("graphs",
         JList
           [JDict [("name", JStr "EventGraph"); ("class", JStr "EdGraph");
                   ("nodes", JList []); ("graph_type", JStr "EventGraph")];
            JDict [("name", JStr "Open"); ("class", JStr "EdGraph");
                   ("nodes", JList []); ("graph_type", JStr "Function")];
            JDict [("name", JStr "Twice"); ("class", JStr "EdGraph");
                   ("nodes", JList []); ("graph_type", JStr "Macro")]])].
Proof. repeat split. Qed.

(** *** The [interfaces] field *)

Lemma unresolved_step (iface : Interface) (result : dict) :
  unresolved iface -> interface_step iface result = (result, Ok tt).
Proof.
  unfold unresolved, interface_step, try_pass, bind, lift.
  destruct (iface_interface iface) as [[c|]|]; simpl; auto.
  now intros ->.
Qed.

Lemma unresolved_loop (ifaces : list Interface) (result : dict) :
  Forall unresolved ifaces ->
  for_each ifaces interface_step result = (result, Ok tt).
Proof.
  induction 1 as [|i rest Hi _ IH]; auto.
  cbn [for_each]. unfold bind. now rewrite (unresolved_step i result Hi).
Qed.

(** When there are interface records and none resolves, the document
    still has the field, holding the empty list. *)
Lemma unresolved_interfaces_leave_empty_list
      (load_asset : string -> option Asset) (asset_path : string)
      (asset : Blueprint) (result : dict) (i : Interface)
      (rest : list Interface) :
  load_asset asset_path = Some (BlueprintAsset asset) ->
  blueprint_to_text load_asset asset_path = Ok result ->
  implemented_interfaces asset = Ok (i :: rest) ->
  Forall unresolved (i :: rest) ->
  dict_get "interfaces" result = Some (JList []).
Proof.
  intros Hl H Hi Hall.
  destruct (blueprint_to_text_inv _ _ _ _ Hl H) as (n & p & _ & _ & ->).
  assert (Hinfo : dict_get "interfaces" (asset_info_before_graphs asset n p)
                  = Some (JList [])).
  { unfold asset_info_before_graphs.
    rewrite !exec_seq by (intros s; reflexivity).
    set (r0 := exec (blueprint_type_block asset) _).
    assert (Hr : exec (interfaces_block asset) r0 =
                 dict_set "interfaces" (JList []) r0).
    { unfold interfaces_block, exec, try_pass, bind, lift, modify.
      rewrite Hi. cbv beta iota.
      now rewrite (unresolved_loop (i :: rest) _ Hall). }
    rewrite Hr.
    assert (Hv : dict_get "interfaces"
                   (exec (variables_block asset)
                      (dict_set "interfaces" (JList []) r0)) =
                 Some (JList [])).
    { rewrite (extends_get _ _ _ "interfaces"
                 (variables_block_extends asset _)).
      - apply dict_get_set_same.
      - simpl. intuition discriminate. }
    destruct (get_components asset); auto.
    rewrite dict_get_set_other by discriminate. exact Hv. }
  destruct (asset_graphs asset); auto.
  rewrite dict_get_set_other by discriminate. exact Hinfo.
Qed.

(** C3 fails on the code.  The only interface record of the door
    Blueprint cannot be resolved, and the document has
    ["interfaces": []]. *)
Theorem unresolved_interfaces_emit_empty_list :
  implemented_interfaces (door_blueprint [stale_interface]) =
    Ok [stale_interface] /\
  iface_interface stale_interface = Raise /\
  blueprint_to_text sample_load_asset "/Game/BP_Door" =
    Ok [("name", JStr "BP_Door");
        ("path", JStr "/Game/BP_Door.BP_Door");
        ("blueprint_type", JStr "BlueprintType.BPTYPE_NORMAL");
        ("interfaces", JList []);
        ("graphs",
         JList
           [JDict [("name", JStr "EventGraph"); ("class", JStr "EdGraph");
                   ("nodes", JList []); ("graph_type", JStr "EventGraph")];
            JDict [("name", JStr "Open"); ("class", JStr "EdGraph");
                   ("nodes", JList []); ("graph_type", JStr "Function")]])].
Proof. repeat split. Qed.

(** ** Loops that isolate their items *)

Lemma for_each_never_raises {S X} (body : X -> M S unit) (xs : list X) :
  (forall x, never_raises (body x)) -> never_raises (for_each xs body).
Proof.
  intros Hbody. induction xs as [|x xs IH]; intros s.
  - reflexivity.
  - cbn [for_each]. unfold bind. specialize (Hbody x s).
    destruct (body x s) as [s' r]. simpl in Hbody. subst r. apply IH.
Qed.

(** The property, component and interface loops guard each item, so no
    item can end them; the node and pin loops have no such guard (see
    [node_loop_truncated] and [pin_loop_unreadable]). *)
Lemma guarded_loops_never_raise :
  (forall cdo props, never_raises (for_each props (property_step cdo))) /\
  (forall scs_nodes, never_raises (for_each scs_nodes component_step)) /\
  (forall ifaces, never_raises (for_each ifaces interface_step)).
Proof.
  repeat split; intros; apply for_each_never_raises;
    intros x s; reflexivity.
Qed.

Lemma for_each_app {S X} (body : X -> M S unit) (xs ys : list X) (s : S) :
  (forall x, never_raises (body x)) ->
  exec (for_each (xs ++ ys)%list body) s =
  exec (for_each ys body) (exec (for_each xs body) s).
Proof.
  intros Hbody. revert s. induction xs as [|x xs IH]; intros s.
  - reflexivity.
  - simpl app. cbn [for_each]. rewrite !exec_seq by apply Hbody. apply IH.
Qed.

(** * Further properties of the serializers *)

(** ** Dict assignments *)

Lemma dict_set_fresh (k : string) (v : json) (d : dict) :
  dict_get k d = None -> dict_set k v d = (d ++ [(k, v)])%list.
Proof.
  induction d as [|[k' v'] d IH]; simpl; auto.
  destruct (k =? k'); [discriminate|]. intros H. now rewrite IH.
Qed.

Lemma dict_keys_set_fresh (k : string) (v : json) (d : dict) :
  dict_get k d = None ->
  dict_keys (dict_set k v d) = (dict_keys d ++ [k])%list.
Proof.
  intros H. rewrite (dict_set_fresh k v d H). unfold dict_keys.
  now rewrite map_app.
Qed.

Lemma dict_keys_set_present (k : string) (v : json) (d : dict) :
  dict_get k d <> None -> dict_keys (dict_set k v d) = dict_keys d.
Proof.
  unfold dict_keys. induction d as [|[k' v'] d IH]; simpl.
  - congruence.
  - destruct (k =? k') eqn:E; simpl.
    + apply String.eqb_eq in E. now subst.
    + intros H. now rewrite IH.
Qed.

(** ** Pin fragments *)

Lemma links_resolve_or_not (ls : list LinkedPin) :
  (exists ss, Forall2 (fun l s => link_text l = Ok s) ls ss) \/
  (exists l, In l ls /\ link_text l = Raise).
Proof.
  induction ls as [|l ls [[ss IH]|(l' & Hin & Hl')]].
  - left. now exists [].
  - destruct (link_text l) as [s|] eqn:E.
    + left. exists (s :: ss). now constructor.
    + right. exists l. simpl. auto.
  - right. exists l'. simpl. auto.
Qed.

Lemma Forall2_link_text_unique (ls : list LinkedPin) (ss ss' : list string) :
  Forall2 (fun l s => link_text l = Ok s) ls ss ->
  Forall2 (fun l s => link_text l = Ok s) ls ss' -> ss = ss'.
Proof.
  intros H. revert ss'. induction H as [|l s ls ss Hl _ IH]; intros ss' H'.
  - now inversion H'.
  - inversion H' as [|l0 s' ls0 ss0 Hl' Hrest]; subst.
    f_equal; [congruence | now apply IH].
Qed.

(** X1: A pin fragment has the keys [name], [direction], [type], then
    [default] if it has one, then [connected_to] if it has one, in this
    order and with no other key. *)
Theorem pin_fragment_keys (p : Pin) :
  dict_keys (serialize_pin p) =
  (["name"; "direction"; "type"]
     ++ key_if_present "default" (serialize_pin p)
     ++ key_if_present "connected_to" (serialize_pin p))%list.
Proof.
  unfold key_if_present.
  destruct (pin_direction p) as [d|] eqn:Hd;
    [destruct (pin_name p) as [n|] eqn:Hn|];
    try (rewrite serialize_pin_unreadable by auto; reflexivity).
  rewrite (serialize_pin_readable p d n Hd Hn).
  rewrite pin_links_other_key by discriminate.
  assert (Hinfo : dict_keys (pin_info p d n) =
                  (["name"; "direction"; "type"] ++
                   match dict_get "default" (pin_info p d n) with
                   | Some _ => ["default"]
                   | None => []
                   end)%list).
  { unfold pin_info. destruct (get_pin_default p) as [s|]; auto.
    destruct (str_truthy s); auto. }
  destruct (pin_links_cases p (pin_info p d n)) as [->|[cs ->]].
  - rewrite pin_info_connected_to, Hinfo. now rewrite app_nil_r.
  - rewrite dict_get_set_same.
    rewrite dict_keys_set_fresh by apply pin_info_connected_to.
    rewrite Hinfo. now rewrite <- app_assoc.
Qed.

(** X2: A pin fragment has [connected_to] exactly when the fragment is not
    the fallback, [linked_to] reads as a non-empty list and every endpoint
    in it resolves; the field is then the list of the endpoints'
    ["<owner kind>:<pin name>"] texts, one per endpoint, in link order. *)
Theorem connected_to_lists_every_endpoint (p : Pin) (v : json) :
  dict_get "connected_to" (serialize_pin p) = Some v <->
  exists l ls ss,
    pin_readable p /\
    pin_linked_to p = Ok (l :: ls) /\
    Forall2 (fun l s => link_text l = Ok s) (l :: ls) ss /\
    v = JList (map JStr ss).
Proof.
  unfold pin_readable. split.
  - intros H.
    destruct (pin_direction p) as [d|] eqn:Hd;
      [destruct (pin_name p) as [n|] eqn:Hn|];
      try (rewrite serialize_pin_unreadable in H by auto; discriminate).
    rewrite (serialize_pin_readable p d n Hd Hn) in H.
    destruct (pin_linked_to p) as [[|l ls]|] eqn:Hl.
    + rewrite pin_links_empty, pin_info_connected_to in H by auto.
      discriminate.
    + destruct (links_resolve_or_not (l :: ls)) as [[ss Hss]|Hbad].
      * rewrite (pin_links_resolved p (l :: ls) ss _ Hl) in H;
          [|discriminate|exact Hss].
        rewrite dict_get_set_same in H. injection H as <-.
        exists l, ls, ss. repeat split; auto; discriminate.
      * rewrite (pin_links_broken p (l :: ls) _ Hl Hbad) in H.
        rewrite pin_info_connected_to in H. discriminate.
    + rewrite pin_links_unreadable, pin_info_connected_to in H by auto.
      discriminate.
  - intros (l & ls & ss & [Hd Hn] & Hl & Hss & ->).
    destruct (pin_direction p) as [d|] eqn:Ed; [|congruence].
    destruct (pin_name p) as [n|] eqn:En; [|congruence].
    rewrite (serialize_pin_readable p d n Ed En).
    rewrite (pin_links_resolved p (l :: ls) ss _ Hl); [|discriminate|exact Hss].
    apply dict_get_set_same.
Qed.

(** The cross-references of [damage_pin]. *)
Lemma connected_to_of_damage_pin :
  dict_get "connected_to" (serialize_pin damage_pin) =
    Some (JList [JStr "K2Node_VariableGet:Health"]).
Proof.
  apply (proj2 (connected_to_lists_every_endpoint damage_pin _)).
  exists health_link, [], ["K2Node_VariableGet:Health"].
  repeat split; try discriminate. repeat constructor.
Defined.

(** X3: The type text of a pin is all-or-nothing.  With the type descriptor
    and its category readable it is the bare category when there is no
    sub-category object and ["<category>(<object name>)"] when there is a
    named one; when the sub-category object or its name cannot be read the
    readable category is dropped as well and the text is ["unknown"], as
    it is when the descriptor or the category cannot be read.  A fragment
    that is not the fallback carries this text under [type]. *)
Theorem pin_type_text_all_or_nothing (p : Pin) :
  (pin_readable p ->
   dict_get "type" (serialize_pin p) = Some (JStr (get_pin_type_str p))) /\
  (forall pt c,
     pin_type p = Ok pt -> pin_category pt = Ok c ->
     (pin_sub_category_object pt = Ok None -> get_pin_type_str p = c) /\
     (forall o n,
        pin_sub_category_object pt = Ok (Some o) -> get_name o = Ok n ->
        get_pin_type_str p = c ++ "(" ++ n ++ ")") /\
     (pin_sub_category_object pt = Raise -> get_pin_type_str p = "unknown") /\
     (forall o,
        pin_sub_category_object pt = Ok (Some o) -> get_name o = Raise ->
        get_pin_type_str p = "unknown")) /\
  (pin_type p = Raise \/
   (exists pt, pin_type p = Ok pt /\ pin_category pt = Raise) ->
   get_pin_type_str p = "unknown").
Proof.
  split; [|split].
  - intros [Hd Hn].
    destruct (pin_direction p) as [d|] eqn:Ed; [|congruence].
    destruct (pin_name p) as [n|] eqn:En; [|congruence].
    rewrite (serialize_pin_readable p d n Ed En).
    rewrite pin_links_other_key by discriminate.
    unfold pin_info. destruct (get_pin_default p) as [s|]; auto.
    destruct (str_truthy s); auto.
  - intros pt c Hpt Hc. unfold get_pin_type_str. rewrite Hpt. simpl.
    rewrite Hc. simpl. repeat split.
    + now intros ->.
    + intros o n -> Hn. simpl. now rewrite Hn.
    + now intros ->.
    + intros o -> Hn. simpl. now rewrite Hn.
  - unfold get_pin_type_str. intros [H|(pt & Hpt & Hc)].
    + now rewrite H.
    + rewrite Hpt. simpl. now rewrite Hc.
Qed.

(** The type text of [damage_pin] and of a pin typed by a struct. *)
Lemma type_text_of_damage_pin :
  pin_readable damage_pin /\
  dict_get "type" (serialize_pin damage_pin) = Some (JStr "float").
Proof.
  assert (Hr : pin_readable damage_pin) by (split; discriminate).
  split; [exact Hr|].
  exact (proj1 (pin_type_text_all_or_nothing damage_pin) Hr).
Defined.

(** X4: The second test of line 31 is subsumed by the first, and the
    classification only depends on the upper-cased text. *)
Theorem is_input_only_tests_the_marker (d : pystr) :
  is_input d = str_in "INPUT" (upper d) /\
  (forall d', upper d = upper d' -> is_input d = is_input d').
Proof.
  assert (H : forall x, is_input x = str_in "INPUT" (upper x)).
  { intros x. unfold is_input.
    destruct (str_in "INPUT" (upper x)) eqn:E1; auto. simpl.
    destruct (str_in "EGPD_INPUT" (upper x)) eqn:E2; auto.
    apply str_in_app in E2. destruct E2 as (a & b & Hab).
    assert (E : str_in "INPUT" (upper x) = true).
    { apply str_in_app. exists (a ++ "EGPD_"), b.
      rewrite Hab, append_assoc. reflexivity. }
    congruence. }
  split; [apply H|]. intros d' Hd. now rewrite !H, Hd.
Qed.

(** ** Node fragments *)

Lemma extends_keeps_head (A : list string) (e1 e2 : string * json)
      (r d' : dict) :
  extends A (e1 :: e2 :: r) d' ->
  ~ In (fst e1) A -> ~ In (fst e2) A ->
  exists r', d' = e1 :: e2 :: r'.
Proof.
  intros H H1 H2. induction H as [|d' k v H IH Hk].
  - now exists r.
  - destruct IH as [r' ->]. destruct e1 as [k1 v1], e2 as [k2 v2].
    simpl in *.
    assert (E1 : (k =? k1) = false) by (apply String.eqb_neq; congruence).
    assert (E2 : (k =? k2) = false) by (apply String.eqb_neq; congruence).
    rewrite E1, E2. eauto.
Qed.

Lemma extension_fields_not_base (c k : string) :
  In k base_fields -> ~ In k (extension_fields c).
Proof.
  intros Hb Hk. apply extension_fields_in in Hk. simpl in Hb.
  destruct Hk as [[[E|E] _]|[[E _]|[[E _]|[E _]]]]; subst k;
    intuition discriminate.
Qed.

Lemma node_fragment_extends (node : Node) (c n : string) :
  extends ("pins" :: "comment" :: extension_fields c)
          [("class", JStr c); ("name", JStr n)]
          (exec (pins_block node) (node_info_before_pins node c n)).
Proof.
  eapply extends_trans.
  - eapply extends_incl; [apply node_info_before_pins_extends|].
    intros k Hk. now right.
  - eapply extends_incl; [apply pins_block_extends|].
    intros k [<-|[]]. now left.
Qed.

(** X5: The only reads whose failure leaves [serialize_node] are the kind tag
    and the name; in every other case a fragment is returned, and it
    begins with [class] and [name], holding what was read. *)
Theorem serialize_node_raises_only_on_identity (node : Node) :
  (serialize_node node = Raise <->
   node_class node = Raise \/ node_name node = Raise) /\
  (forall info,
     serialize_node node = Ok info ->
     exists c n rest,
       node_class node = Ok c /\ node_name node = Ok n /\
       info = ("class", JStr c) :: ("name", JStr n) :: rest).
Proof.
  split.
  - unfold serialize_node.
    destruct (node_class node) as [c|]; simpl; [|tauto].
    destruct (node_name node) as [n|]; simpl; [|tauto].
    split; [discriminate | intros [H|H]; discriminate].
  - intros info H.
    destruct (serialize_node_inv node info H) as (c & n & Hc & Hn & ->).
    destruct (extends_keeps_head _ _ _ _ _ (node_fragment_extends node c n))
      as [rest Hrest].
    + simpl. intros [E|[E|E]]; try discriminate.
      revert E. apply extension_fields_not_base. simpl. auto.
    + simpl. intros [E|[E|E]]; try discriminate.
      revert E. apply extension_fields_not_base. simpl. auto.
    + exists c, n, rest. auto.
Qed.

Lemma node_field_before_pins (node : Node) (info : dict) (k : string) :
  serialize_node node = Ok info -> k <> "pins" ->
  exists c n,
    node_class node = Ok c /\ node_name node = Ok n /\
    dict_get k info = dict_get k (node_info_before_pins node c n).
Proof.
  intros H Hk.
  destruct (serialize_node_inv node info H) as (c & n & Hc & Hn & ->).
  exists c, n. repeat split; auto.
  apply (extends_get _ _ _ k (pins_block_extends node _)).
  simpl. intuition congruence.
Qed.

Lemma comment_block_run (node : Node) (d : dict) :
  exec (node_comment_block node) d =
  match node_comment node with
  | Ok c => if truthy c then dict_set "comment" (JStr (py_str c)) d else d
  | Raise => d
  end.
Proof.
  unfold node_comment_block, exec, try_pass, bind, lift, when, modify, ret.
  destruct (node_comment node) as [c|]; auto. now destruct (truthy c).
Qed.

(** X6: The [comment] field is there exactly when the comment reads and is
    truthy, whatever the kind branch and the pins do. *)
Theorem comment_field (node : Node) (info : dict) :
  serialize_node node = Ok info ->
  dict_get "comment" info =
  match node_comment node with
  | Ok c => if truthy c then Some (JStr (py_str c)) else None
  | Raise => None
  end.
Proof.
  intros H.
  destruct (node_field_before_pins node info "comment" H)
    as (c & n & _ & _ & ->); [discriminate|].
  unfold node_info_before_pins.
  rewrite (extends_get _ _ _ "comment" (kind_block_extends c node _))
    by (apply extension_fields_not_base; simpl; auto).
  rewrite comment_block_run.
  destruct (node_comment node) as [v|]; auto.
  destruct (truthy v); reflexivity.
Qed.

(** [print_node] has a comment; its fragment shows it. *)
Lemma comment_of_print_node :
  exists info,
    serialize_node print_node = Ok info /\
    dict_get "comment" info = Some (JStr "log it").
Proof.
  eexists. split; [reflexivity|].
  exact (comment_field print_node _ eq_refl).
Defined.

Lemma comment_block_other_key (node : Node) (d : dict) (k : string) :
  k <> "comment" ->
  dict_get k (exec (node_comment_block node) d) = dict_get k d.
Proof.
  intros Hk. apply (extends_get _ _ _ k (node_comment_block_extends node d)).
  simpl. intuition congruence.
Qed.

Lemma call_function_before_pins (node : Node) (n : string) :
  node_info_before_pins node "K2Node_CallFunction" n =
  exec (call_function_block node)
       (exec (node_comment_block node)
             [("class", JStr "K2Node_CallFunction"); ("name", JStr n)]).
Proof. reflexivity. Qed.

(** X7: In a call-function node [function] and [target_class] share one
    [try]: a member name that cannot be read suppresses [target_class]
    too, even when the owning class is readable, whereas a member name
    that reads, truthy or not, leaves [target_class] to the owning class
    alone; [function] is kept when the owning class cannot be read. *)
Theorem call_function_fields_share_a_guard (node : Node) (info : dict)
        (ref : MemberRef) :
  node_class node = Ok "K2Node_CallFunction" ->
  serialize_node node = Ok info ->
  function_reference node = Ok (Some ref) ->
  (member_name ref = Raise ->
   dict_get "function" info = None /\ dict_get "target_class" info = None) /\
  (forall v,
     member_name ref = Ok v ->
     dict_get "function" info =
       (if truthy v then Some (JStr (py_str v)) else None) /\
     dict_get "target_class" info =
       match member_parent ref with
       | Ok (Some cls) =>
           match get_name cls with
           | Ok n => Some (JStr n)
           | Raise => None
           end
       | _ => None
       end).
Proof.
  intros Hc H Href.
  destruct (node_field_before_pins node info "function" H)
    as (c & n & Hc' & Hn & ->); [discriminate|].
  destruct (node_field_before_pins node info "target_class" H)
    as (c2 & n2 & Hc2 & Hn2 & ->); [discriminate|].
  assert (c = "K2Node_CallFunction") by congruence.
  assert (c2 = "K2Node_CallFunction") by congruence. subst c c2.
  assert (n = n2) by congruence. subst n2. clear Hc' Hc2 Hn2.
  rewrite call_function_before_pins.
  set (d := exec (node_comment_block node) _).
  assert (Hf : dict_get "function" d = None)
    by (unfold d; now rewrite comment_block_other_key by discriminate).
  assert (Ht : dict_get "target_class" d = None)
    by (unfold d; now rewrite comment_block_other_key by discriminate).
  unfold call_function_block, exec, try_pass, bind, lift, when, modify, ret.
  rewrite Href. simpl. split.
  - intros ->. simpl. auto.
  - intros v ->. simpl.
    destruct (truthy v); simpl;
      destruct (member_parent ref) as [[cls|]|]; simpl;
      try destruct (get_name cls); simpl;
      rewrite ?dict_get_set_same, ?dict_get_set_other by discriminate;
      rewrite ?dict_get_set_same; auto.
Qed.

(** [nameless_call_node]: the owning class reads, the member name does
    not, and the fragment shows neither. *)
Lemma fields_of_nameless_call_node :
  exists info,
    serialize_node nameless_call_node = Ok info /\
    dict_get "function" info = None /\
    dict_get "target_class" info = None.
Proof.
  eexists. split; [reflexivity|].
  exact (proj1 (call_function_fields_share_a_guard nameless_call_node _ _
                  eq_refl eq_refl eq_refl) eq_refl).
Defined.

(** X8: A call-function node whose function reference cannot be read, or is
    null, still has its fragment, with [class] and [name] and without
    [function] and [target_class]. *)
Theorem unresolved_call_keeps_its_fragment (node : Node) (n : string) :
  node_class node = Ok "K2Node_CallFunction" ->
  node_name node = Ok n ->
  function_reference node = Raise \/ function_reference node = Ok None ->
  exists info,
    serialize_node node = Ok info /\
    dict_get "class" info = Some (JStr "K2Node_CallFunction") /\
    dict_get "name" info = Some (JStr n) /\
    dict_get "function" info = None /\
    dict_get "target_class" info = None.
Proof.
  intros Hc Hn Href.
  rewrite (serialize_node_run node _ n Hc Hn). eexists. split; [reflexivity|].
  pose proof (pins_block_extends node
                (node_info_before_pins node "K2Node_CallFunction" n)) as Hp.
  rewrite !(extends_get _ _ _ _ Hp) by (simpl; intuition discriminate).
  rewrite call_function_before_pins.
  assert (Hrun : forall d, exec (call_function_block node) d = d).
  { intros d.
    unfold call_function_block, exec, try_pass, bind, lift.
    destruct Href as [-> | ->]; reflexivity. }
  rewrite Hrun. rewrite !comment_block_other_key by discriminate.
  repeat split.
Qed.

(** A call-function node with nothing readable but its identity. *)
Lemma fragment_of_unresolved_call :
  exists info,
    serialize_node
      {| node_class := Ok "K2Node_CallFunction";
         node_name := Ok "K2Node_CallFunction_9";
         node_comment := Raise;
         function_reference := Raise;
         variable_reference := Raise;
         event_reference := Raise;
         custom_function_name := Raise;
         macro_graph_reference := Raise;
         node_pins := Raise |} = Ok info /\
    dict_get "class" info = Some (JStr "K2Node_CallFunction") /\
    dict_get "name" info = Some (JStr "K2Node_CallFunction_9") /\
    dict_get "function" info = None /\
    dict_get "target_class" info = None.
Proof.
  apply unresolved_call_keeps_its_fragment;
    [reflexivity | reflexivity | left; reflexivity].
Defined.

Lemma kind_field_before_pins (node : Node) (info : dict) (c k : string) :
  node_class node = Ok c -> serialize_node node = Ok info -> k <> "pins" ->
  exists n, dict_get k info = dict_get k (node_info_before_pins node c n).
Proof.
  intros Hc H Hk.
  destruct (node_field_before_pins node info k H Hk) as (c' & n & Hc' & _ & E).
  exists n. congruence.
Qed.

(** X9: In a variable-get or variable-set node the [variable] field is there
    whenever the variable reference and its member name read: the name is
    not tested for truthiness, so an empty name is emitted as [""]. *)
Theorem variable_field_ignores_truthiness (node : Node) (info : dict)
        (c : string) :
  node_class node = Ok c ->
  c = "K2Node_VariableGet" \/ c = "K2Node_VariableSet" ->
  serialize_node node = Ok info ->
  dict_get "variable" info =
  match variable_reference node with
  | Ok (Some ref) =>
      match member_name ref with
      | Ok v => Some (JStr (py_str v))
      | Raise => None
      end
  | _ => None
  end.
Proof.
  intros Hc Hkind H.
  destruct (kind_field_before_pins node info c "variable" Hc H) as [n ->];
    [discriminate|].
  assert (E : node_info_before_pins node c n =
              exec (variable_block node)
                   (exec (node_comment_block node)
                         [("class", JStr c); ("name", JStr n)]))
    by (destruct Hkind; subst c; reflexivity).
  rewrite E. set (d := exec (node_comment_block node) _).
  assert (Hd : dict_get "variable" d = None)
    by (unfold d; now rewrite comment_block_other_key by discriminate).
  unfold variable_block, exec, try_pass, bind, lift, modify, ret.
  destruct (variable_reference node) as [[ref|]|]; simpl; auto.
  destruct (member_name ref) as [v|]; simpl; auto.
  apply dict_get_set_same.
Qed.

(** [unnamed_variable_node]: the member name is empty and falsy, and the
    fragment has ["variable": ""]. *)
Lemma variable_of_unnamed_variable_node :
  exists info,
    serialize_node unnamed_variable_node = Ok info /\
    dict_get "variable" info = Some (JStr "").
Proof.
  eexists. split; [reflexivity|].
  exact (variable_field_ignores_truthiness unnamed_variable_node _
           "K2Node_VariableGet" eq_refl (or_introl eq_refl) eq_refl).
Defined.

(** X10: A custom event takes [event_name] from its own custom function name
    and never from an event reference; an event node takes it from the
    member name of its event reference.  Neither tests the name for
    truthiness. *)
Theorem event_name_source (node : Node) (info : dict) (c : string) :
  node_class node = Ok c ->
  serialize_node node = Ok info ->
  (c = "K2Node_CustomEvent" ->
   dict_get "event_name" info =
   match custom_function_name node with
   | Ok v => Some (JStr (py_str v))
   | Raise => None
   end) /\
  (c = "K2Node_Event" ->
   dict_get "event_name" info =
   match event_reference node with
   | Ok (Some ref) =>
       match member_name ref with
       | Ok v => Some (JStr (py_str v))
       | Raise => None
       end
   | _ => None
   end).
Proof.
  intros Hc H.
  destruct (kind_field_before_pins node info c "event_name" Hc H) as [n ->];
    [discriminate|].
  split; intros ->.
  - change (node_info_before_pins node "K2Node_CustomEvent" n)
      with (exec (event_block "K2Node_CustomEvent" node)
                 (exec (node_comment_block node)
                       [("class", JStr "K2Node_CustomEvent");
                        ("name", JStr n)])).
    set (d := exec (node_comment_block node) _).
    assert (Hd : dict_get "event_name" d = None)
      by (unfold d; now rewrite comment_block_other_key by discriminate).
    unfold event_block, exec, try_pass, bind, lift, modify, ret. simpl.
    destruct (custom_function_name node) as [v|]; simpl; auto.
    apply dict_get_set_same.
  - change (node_info_before_pins node "K2Node_Event" n)
      with (exec (event_block "K2Node_Event" node)
                 (exec (node_comment_block node)
                       [("class", JStr "K2Node_Event"); ("name", JStr n)])).
    set (d := exec (node_comment_block node) _).
    assert (Hd : dict_get "event_name" d = None)
      by (unfold d; now rewrite comment_block_other_key by discriminate).
    unfold event_block, exec, try_pass, bind, lift, modify, ret. simpl.
    destruct (event_reference node) as [[ref|]|]; simpl; auto.
    destruct (member_name ref) as [v|]; simpl; auto.
    apply dict_get_set_same.
Qed.

(** [custom_event_node] has both a custom function name and an event
    reference; the fragment shows the former. *)
Lemma event_name_of_custom_event_node :
  exists info,
    serialize_node custom_event_node = Ok info /\
    dict_get "event_name" info = Some (JStr "OnDoorOpened").
Proof.
  eexists. split; [reflexivity|].
  exact (proj1 (event_name_source custom_event_node _ "K2Node_CustomEvent"
                  eq_refl eq_refl) eq_refl).
Defined.

(** X11: A node fragment has [pins] exactly when the pin collection reads, the
    name of every pin in it reads, and some pin passes the name filter;
    the field is then the non-empty list of the fragments of the passing
    pins.  It is never an empty list. *)
Theorem pins_field_iff (node : Node) (info : dict) (v : json) :
  serialize_node node = Ok info ->
  (dict_get "pins" info = Some v <->
   exists ps,
     node_pins node = Ok ps /\
     Forall (fun p => pin_name p <> Raise) ps /\
     filter kept ps <> [] /\
     v = JList (map pin_fragment (filter kept ps))).
Proof.
  intros H. destruct (serialize_node_inv node info H) as (c & n & _ & _ & ->).
  split.
  - intros Hget.
    destruct (pins_block_cases node (node_info_before_pins node c n))
      as [E|(ps & Hps & Hall & Hne & E)]; rewrite E in Hget.
    + rewrite node_info_before_pins_no_pins in Hget. discriminate.
    + rewrite dict_get_set_same in Hget. injection Hget as <-.
      exists ps. auto.
  - intros (ps & Hps & Hall & Hne & ->).
    rewrite (pins_block_readable node ps _ Hps Hall).
    destruct (filter kept ps); [congruence|]. apply dict_get_set_same.
Qed.

(** The [pins] of [print_node]. *)
Lemma pins_field_of_print_node :
  exists info,
    serialize_node print_node = Ok info /\
    dict_get "pins" info = Some (JList [pin_fragment damage_pin]).
Proof.
  eexists. split; [reflexivity|].
  apply (proj2 (pins_field_iff print_node _ _ eq_refl)).
  exists [exec_pin; damage_pin]. split; [reflexivity|]. split.
  - repeat constructor; discriminate.
  - split; [discriminate | reflexivity].
Defined.

(** [fallback_keeps_slot] at a node whose only pin has a readable name
    and an unreadable direction. *)
Lemma fallback_slot_of_target_pin :
  exists frags,
    dict_get "pins"
      [("class", JStr "K2Node_Knot"); ("name", JStr "K2Node_Knot_0");
       ("pins", JList [JDict pin_fallback])] = Some (JList frags) /\
    In (JDict pin_fallback) frags.
Proof.
  refine (fallback_keeps_slot (knot_node [target_pin]) _ [target_pin]
            eq_refl eq_refl _ target_pin _ eq_refl eq_refl).
  - repeat constructor. discriminate.
  - left. reflexivity.
Defined.

(** ** Graph fragments *)

Lemma ok_prefix_loop {X Y} (f : X -> read Y) (g : Y -> json) (xs : list X)
      (acc : list json) :
  fst (for_each xs
         (fun x => bind (lift (f x))
                        (fun y => modify (fun a => (a ++ [g y])%list)))
         acc) =
  (acc ++ map g (ok_prefix f xs))%list.
Proof.
  revert acc. induction xs as [|x xs IH]; intros acc.
  - simpl. now rewrite app_nil_r.
  - cbn [for_each ok_prefix]. unfold bind at 1. unfold bind at 1.
    unfold lift, modify. destruct (f x) as [y|]; simpl.
    + rewrite IH. now rewrite <- app_assoc.
    + now rewrite app_nil_r.
Qed.

Lemma ok_prefix_all {X Y} (f : X -> read Y) (xs : list X) :
  Forall (fun x => f x <> Raise) xs ->
  Forall2 (fun x y => f x = Ok y) xs (ok_prefix f xs).
Proof.
  induction 1 as [|x xs Hx _ IH]; simpl; [constructor|].
  destruct (f x) as [y|] eqn:E; [|congruence]. now constructor.
Qed.

Lemma nodes_block_prefix (g : Graph) :
  exec (nodes_block g) [] = map JDict (ok_prefix serialize_node (nodes_of g)).
Proof.
  unfold nodes_block, nodes_of, exec, try_pass, bind at 1, lift at 1.
  destruct (graph_nodes g) as [ns|]; [|reflexivity].
  apply (ok_prefix_loop serialize_node JDict ns []).
Qed.

(** X13: The [nodes] of a graph fragment are the fragments of the graph's
    nodes in host order, up to the first node whose serialization raises;
    when every node serializes there is one fragment per node. *)
Theorem graph_nodes_in_host_order (g : Graph) (d : dict) :
  serialize_graph g = Ok d ->
  dict_get "nodes" d =
    Some (JList (map JDict (ok_prefix serialize_node (nodes_of g)))) /\
  (Forall (fun n => serialize_node n <> Raise) (nodes_of g) ->
   Forall2 (fun n info => serialize_node n = Ok info)
           (nodes_of g) (ok_prefix serialize_node (nodes_of g))).
Proof.
  intros H. split.
  - rewrite (serialize_graph_nodes g d H). now rewrite nodes_block_prefix.
  - apply ok_prefix_all.
Qed.

(** The nodes of [untyped_graph]. *)
Lemma nodes_of_untyped_graph :
  exists d info,
    serialize_graph untyped_graph = Ok d /\
    serialize_node print_node = Ok info /\
    dict_get "nodes" d = Some (JList [JDict info]).
Proof.
  eexists. eexists. split; [reflexivity|]. split; [reflexivity|].
  exact (proj1 (graph_nodes_in_host_order untyped_graph _ eq_refl)).
Defined.

(** X14: [serialize_graph] raises exactly when the graph's name cannot be
    read.  Otherwise the fragment has the keys [name], then [class] when
    the graph's kind tag reads, then [nodes]; an unreadable kind tag only
    costs the [class] field. *)
Theorem serialize_graph_raises_only_on_name (g : Graph) :
  (serialize_graph g = Raise <-> graph_name g = Raise) /\
  (forall d,
     serialize_graph g = Ok d ->
     exists n,
       graph_name g = Ok n /\
       dict_get "name" d = Some (JStr n) /\
       dict_get "class" d =
         match graph_class g with
         | Ok c => Some (JStr c)
         | Raise => None
         end /\
       dict_keys d =
         ("name" :: match graph_class g with
                    | Ok _ => ["class"]
                    | Raise => []
                    end ++ ["nodes"])%list).
Proof.
  split.
  - unfold serialize_graph. destruct (graph_name g); simpl.
    + split; discriminate.
    + tauto.
  - intros d H. destruct (serialize_graph_inv g d H) as (n & Hn & ->).
    exists n. split; [exact Hn|].
    destruct (graph_class g); repeat split.
Qed.

(** The fragment of [untyped_graph] has no [class]. *)
Lemma fragment_of_untyped_graph :
  exists d n,
    serialize_graph untyped_graph = Ok d /\
    graph_name untyped_graph = Ok n /\
    dict_get "class" d = None /\
    dict_keys d = ["name"; "nodes"].
Proof.
  eexists. eexists. split; [reflexivity|].
  destruct (proj2 (serialize_graph_raises_only_on_name untyped_graph)
              _ eq_refl) as (n & Hn & _ & Hc & Hk).
  injection Hn as <-. split; [reflexivity|]. split; [exact Hc | exact Hk].
Defined.

(** ** Guarded loops *)

(** A loop whose body never raises and only appends to its list gives
    the concatenation of what the body gives on each item alone. *)
Lemma guarded_loop_concat {X} (body : X -> M (list json) unit)
      (xs : list X) (acc : list json) :
  (forall x, never_raises (body x)) ->
  (forall x a, exec (body x) a = (a ++ exec (body x) [])%list) ->
  exec (for_each xs body) acc =
  (acc ++ flat_map (fun x => exec (body x) []) xs)%list.
Proof.
  intros Hnr Happ. revert acc. induction xs as [|x xs IH]; intros acc.
  - simpl. now rewrite app_nil_r.
  - cbn [for_each flat_map]. rewrite exec_seq by apply Hnr.
    rewrite IH, (Happ x acc). now rewrite <- app_assoc.
Qed.

(** ** Property descriptors *)

Lemma property_step_run (cdo : DefaultObject) (p : Property)
      (acc : list json) :
  exec (property_step cdo p) acc =
  match prop_get_name p, prop_class p with
  | Ok n, Ok c => (acc ++ [JDict (property_info cdo n c p)])%list
  | _, _ => acc
  end.
Proof.
  unfold property_step, property_info, exec, try_pass, bind at 1, lift at 1.
  destruct (prop_get_name p) as [n|]; [|reflexivity].
  unfold bind at 1, lift at 1.
  destruct (prop_class p) as [c|]; reflexivity.
Qed.

Lemma property_step_appends (cdo : DefaultObject) (p : Property)
      (acc : list json) :
  exec (property_step cdo p) acc =
  (acc ++ exec (property_step cdo p) [])%list.
Proof.
  rewrite !property_step_run.
  destruct (prop_get_name p); [destruct (prop_class p)|];
    simpl; now rewrite ?app_nil_r.
Qed.

(** X15: Without a default object there are no variables: [get_property_info]
    gives the empty list when the default object cannot be obtained or is
    null, and when the property collection cannot be read. *)
Theorem get_property_info_empty_without_default_object (bp_class : GenClass) :
  get_default_object bp_class = Raise \/
  get_default_object bp_class = Ok None \/
  properties bp_class = Raise ->
  get_property_info bp_class = [].
Proof.
  unfold get_property_info, exec, try_pass, bind, lift.
  intros [H|[H|H]]; try (rewrite H; reflexivity).
  destruct (get_default_object bp_class) as [[cdo|]|]; auto.
  now rewrite H.
Qed.

(** [abstract_class] declares a property and has no default object. *)
Lemma property_info_of_abstract_class :
  get_property_info abstract_class = [].
Proof.
  apply get_property_info_empty_without_default_object.
  right; left; reflexivity.
Defined.

(** X16: A property is described on its own: with a default object and a
    readable property collection, the result is the concatenation, in
    declaration order, of what each property gives alone, which is nothing
    when its name or kind cannot be read and one descriptor otherwise.  So
    an unreadable property is skipped and hides no other. *)
Theorem property_failures_are_confined (bp_class : GenClass)
        (cdo : DefaultObject) (props : list Property) :
  get_default_object bp_class = Ok (Some cdo) ->
  properties bp_class = Ok props ->
  get_property_info bp_class =
    flat_map (fun p => descriptors_of cdo [p]) props /\
  (forall p,
     descriptors_of cdo [p] =
     match prop_get_name p, prop_class p with
     | Ok n, Ok c => [JDict (property_info cdo n c p)]
     | _, _ => []
     end) /\
  (forall before after,
     props = (before ++ after)%list ->
     get_property_info bp_class =
       (descriptors_of cdo before ++ descriptors_of cdo after)%list).
Proof.
  intros Hcdo Hprops.
  assert (Hloop : forall ps,
             descriptors_of cdo ps =
             flat_map (fun p => descriptors_of cdo [p]) ps).
  { intros ps. unfold descriptors_of.
    rewrite (guarded_loop_concat (property_step cdo) ps []).
    - apply flat_map_ext. intros p. cbn [for_each].
      rewrite exec_seq by (intros s; reflexivity). reflexivity.
    - intros x s. reflexivity.
    - apply property_step_appends. }
  assert (Hget : get_property_info bp_class = descriptors_of cdo props).
  { unfold get_property_info, descriptors_of, exec, try_pass, bind at 1,
      lift at 1.
    rewrite Hcdo. unfold bind at 1, lift at 1. now rewrite Hprops. }
  split; [now rewrite Hget, Hloop|]. split.
  - intros p. unfold descriptors_of. cbn [for_each].
    rewrite exec_seq by (intros s; reflexivity).
    change (exec (ret tt) ?s) with s.
    rewrite property_step_run.
    destruct (prop_get_name p); [destruct (prop_class p)|]; reflexivity.
  - intros before after ->. rewrite Hget, !Hloop. apply flat_map_app.
Qed.

(** [sample_class]: the null property between [Health] and [Speed] is
    skipped, and [Speed] is described. *)
Lemma property_info_of_sample_class :
  get_property_info sample_class =
    (descriptors_of sample_cdo [sample_property "Health" torn_flags]
     ++ descriptors_of sample_cdo
          [null_property; sample_property "Speed" plain_flags])%list /\
  descriptors_of sample_cdo [null_property] = [].
Proof.
  destruct (property_failures_are_confined sample_class sample_cdo _
              eq_refl eq_refl) as (_ & Hone & Hsplit).
  split.
  - exact (Hsplit [sample_property "Health" torn_flags]
                  [null_property; sample_property "Speed" plain_flags]
                  eq_refl).
  - exact (Hone null_property).
Defined.

Lemma default_value_block_run (cdo : DefaultObject) (n : string) (d : dict) :
  exec (default_value_block cdo n) d =
  match cdo_get_editor_property cdo n with
  | Ok (Some s) => dict_set "default_value" (JStr s) d
  | _ => d
  end.
Proof.
  unfold default_value_block, exec, try_pass, bind, lift, modify, ret.
  destruct (cdo_get_editor_property cdo n) as [[s|]|]; reflexivity.
Qed.

Lemma property_info_run (cdo : DefaultObject) (n c : string) (p : Property) :
  property_info cdo n c p =
  exec (flags_block p)
       (exec (default_value_block cdo n)
             [("name", JStr n); ("property_class", JStr c)]).
Proof.
  unfold property_info. now rewrite exec_seq by (intros s; reflexivity).
Qed.

Lemma flags_block_extends (p : Property) (d : dict) :
  extends ["blueprint_visible"; "blueprint_read_only"; "edit_anywhere";
           "replicated"] d (exec (flags_block p) d).
Proof. unfold flags_block, flag_step. run_block; by_assignments. Qed.

(** X17: A descriptor always has [name] and [property_class]; it has
    [default_value] exactly when the default object gives a value other
    than [None] for the property's name, and a failure of that read costs
    nothing else. *)
Theorem property_descriptor_fields (cdo : DefaultObject) (n c : string)
        (p : Property) :
  dict_get "name" (property_info cdo n c p) = Some (JStr n) /\
  dict_get "property_class" (property_info cdo n c p) = Some (JStr c) /\
  dict_get "default_value" (property_info cdo n c p) =
    match cdo_get_editor_property cdo n with
    | Ok (Some s) => Some (JStr s)
    | _ => None
    end.
Proof.
  rewrite property_info_run.
  rewrite !(extends_get _ _ _ _ (flags_block_extends p _))
    by (simpl; intuition discriminate).
  rewrite default_value_block_run.
  destruct (cdo_get_editor_property cdo n) as [[s|]|]; repeat split.
Qed.

(** X18: The four flag checks share one [try] and run in a fixed order, so a
    check that raises hides every flag checked after it, while the flags
    found before it stay.  A flag key, when present, holds [true]. *)
Theorem flag_check_failure_hides_later_flags (cdo : DefaultObject)
        (n c : string) (p : Property) (v : json) :
  (dict_get "blueprint_visible" (property_info cdo n c p) = Some v <->
   v = JBool true /\
   has_any_property_flags p BLUEPRINT_VISIBLE = Ok true) /\
  (dict_get "blueprint_read_only" (property_info cdo n c p) = Some v <->
   v = JBool true /\
   has_any_property_flags p BLUEPRINT_VISIBLE <> Raise /\
   has_any_property_flags p BLUEPRINT_READ_ONLY = Ok true) /\
  (dict_get "edit_anywhere" (property_info cdo n c p) = Some v <->
   v = JBool true /\
   has_any_property_flags p BLUEPRINT_VISIBLE <> Raise /\
   has_any_property_flags p BLUEPRINT_READ_ONLY <> Raise /\
   has_any_property_flags p EDIT_ANYWHERE = Ok true) /\
  (dict_get "replicated" (property_info cdo n c p) = Some v <->
   v = JBool true /\
   has_any_property_flags p BLUEPRINT_VISIBLE <> Raise /\
   has_any_property_flags p BLUEPRINT_READ_ONLY <> Raise /\
   has_any_property_flags p EDIT_ANYWHERE <> Raise /\
   has_any_property_flags p NET_REPLICATE = Ok true).
Proof.
  rewrite property_info_run, default_value_block_run.
  unfold flags_block, flag_step, exec, try_pass, bind, lift, when, modify, ret.
  destruct (cdo_get_editor_property cdo n) as [[s|]|];
    destruct (has_any_property_flags p BLUEPRINT_VISIBLE) as [[|]|];
    destruct (has_any_property_flags p BLUEPRINT_READ_ONLY) as [[|]|];
    destruct (has_any_property_flags p EDIT_ANYWHERE) as [[|]|];
    destruct (has_any_property_flags p NET_REPLICATE) as [[|]|];
    simpl;
    repeat match goal with |- _ /\ _ => split end;
    (split;
     [ intros H; try discriminate H; injection H as <-;
       repeat split; first [reflexivity | discriminate]
     | intros H; decompose [and] H; clear H; subst;
       first [reflexivity | congruence] ]).
Qed.

(** [Health] with [torn_flags]: visible, and the read-only check raises,
    so [replicated] is hidden although the flag is set. *)
Lemma flags_of_torn_property :
  dict_get "blueprint_visible"
    (property_info sample_cdo "Health" "FloatProperty"
       (sample_property "Health" torn_flags)) = Some (JBool true) /\
  has_any_property_flags (sample_property "Health" torn_flags) NET_REPLICATE
    = Ok true /\
  dict_get "replicated"
    (property_info sample_cdo "Health" "FloatProperty"
       (sample_property "Health" torn_flags)) = None.
Proof.
  split; [|split; [reflexivity|]].
  - apply (proj2 (proj1 (flag_check_failure_hides_later_flags sample_cdo
                           "Health" "FloatProperty"
                           (sample_property "Health" torn_flags)
                           (JBool true)))).
    split; reflexivity.
  - destruct (dict_get "replicated" _) as [v|] eqn:E; [|reflexivity].
    destruct (proj1 (proj2 (proj2 (proj2
                (flag_check_failure_hides_later_flags sample_cdo
                   "Health" "FloatProperty"
                   (sample_property "Health" torn_flags) v)))) E)
      as (_ & _ & Hro & _).
    exfalso. apply Hro. reflexivity.
Defined.

(** ** Component descriptors *)

Lemma component_step_run (node : SCSNode) (acc : list json) :
  exec (component_step node) acc =
  match component_template node with
  | Ok (Some t) =>
      match template_name t, template_class t,
            parent_component_or_variable_name node with
      | Ok n, Ok c, Ok parent =>
          (acc ++ [JDict (("name", JStr n) :: ("class", JStr c) ::
                          if truthy parent
                          then [("parent", JStr (py_str parent))]
                          else [])])%list
      | _, _, _ => acc
      end
  | _ => acc
  end.
Proof.
  unfold component_step, exec, try_pass, bind, lift, modify, ret.
  destruct (component_template node) as [[t|]|]; simpl; auto.
  destruct (template_name t) as [n|]; simpl; auto.
  destruct (template_class t) as [c|]; simpl; auto.
  destruct (parent_component_or_variable_name node) as [parent|]; simpl; auto.
  destruct (truthy parent); reflexivity.
Qed.

Lemma component_step_appends (node : SCSNode) (acc : list json) :
  exec (component_step node) acc =
  (acc ++ exec (component_step node) [])%list.
Proof.
  rewrite !component_step_run.
  destruct (component_template node) as [[t|]|];
    [destruct (template_name t), (template_class t),
       (parent_component_or_variable_name node)| |];
    simpl; now rewrite ?app_nil_r.
Qed.

Lemma components_of_concat (nodes : list SCSNode) :
  components_of nodes = flat_map (fun n => components_of [n]) nodes.
Proof.
  unfold components_of.
  rewrite (guarded_loop_concat component_step nodes []).
  - apply flat_map_ext. intros n. cbn [for_each].
    rewrite exec_seq by (intros s; reflexivity). reflexivity.
  - intros x s. reflexivity.
  - apply component_step_appends.
Qed.

Lemma components_of_one (node : SCSNode) :
  components_of [node] = exec (component_step node) [].
Proof.
  unfold components_of. cbn [for_each].
  now rewrite exec_seq by (intros s; reflexivity).
Qed.

(** X19: [get_components] gives the empty list when the construction script
    or its node collection cannot be read or the script is null; otherwise
    it is the concatenation, in host order, of what each construction
    node gives alone, so no node hides another. *)
Theorem get_components_is_per_node (bp : Blueprint) :
  (simple_construction_script bp = Raise \/
   simple_construction_script bp = Ok None \/
   (exists scs, simple_construction_script bp = Ok (Some scs) /\
                get_all_nodes scs = Raise) ->
   get_components bp = []) /\
  (forall scs nodes,
     simple_construction_script bp = Ok (Some scs) ->
     get_all_nodes scs = Ok nodes ->
     get_components bp = flat_map (fun n => components_of [n]) nodes /\
     forall before after,
       nodes = (before ++ after)%list ->
       get_components bp =
         (components_of before ++ components_of after)%list).
Proof.
  split.
  - unfold get_components, exec, try_pass, bind, lift.
    intros [H|[H|(scs & H & Hn)]]; rewrite H; auto. now rewrite Hn.
  - intros scs nodes Hscs Hnodes.
    assert (Hget : get_components bp = components_of nodes).
    { unfold get_components, components_of, exec, try_pass, bind at 1,
        lift at 1.
      rewrite Hscs. unfold bind at 1, lift at 1. now rewrite Hnodes. }
    split; [now rewrite Hget, components_of_concat|].
    intros before after ->.
    rewrite Hget, !components_of_concat. apply flat_map_app.
Qed.

(** The components of [gate_blueprint], split after the root. *)
Lemma components_of_gate_blueprint :
  get_components gate_blueprint =
    (components_of [root_scs_node]
     ++ components_of [detached_scs_node; mesh_scs_node])%list.
Proof.
  destruct (proj2 (get_components_is_per_node gate_blueprint) _ _
              eq_refl eq_refl) as [_ H].
  exact (H [root_scs_node] [detached_scs_node; mesh_scs_node] eq_refl).
Defined.

(** X20: A construction node gives one descriptor when its template is there
    and the template's name and kind and the node's parent name all read:
    [name], [class], and [parent] when the parent name is truthy.  In
    every other case it gives nothing: a parent name that cannot be read
    drops the whole component, not just its [parent] field; so does a
    template whose name or kind cannot be read, and a missing or
    unreadable template. *)
Theorem component_needs_readable_parent (node : SCSNode) :
  (forall t n c parent,
     component_template node = Ok (Some t) ->
     template_name t = Ok n -> template_class t = Ok c ->
     parent_component_or_variable_name node = Ok parent ->
     components_of [node] =
       [JDict (("name", JStr n) :: ("class", JStr c) ::
               if truthy parent then [("parent", JStr (py_str parent))]
               else [])]) /\
  (parent_component_or_variable_name node = Raise ->
   components_of [node] = []) /\
  (component_template node = Raise \/ component_template node = Ok None ->
   components_of [node] = []) /\
  (forall t,
     component_template node = Ok (Some t) ->
     template_name t = Raise \/ template_class t = Raise ->
     components_of [node] = []) /\
  (components_of [node] <> [] <->
   exists t n c parent,
     component_template node = Ok (Some t) /\
     template_name t = Ok n /\ template_class t = Ok c /\
     parent_component_or_variable_name node = Ok parent).
Proof.
  rewrite components_of_one, component_step_run. repeat split.
  - intros t n c parent -> -> -> ->. reflexivity.
  - intros ->. destruct (component_template node) as [[t|]|]; auto.
    destruct (template_name t), (template_class t); reflexivity.
  - intros [-> | ->]; reflexivity.
  - intros t -> [-> | ->]; [reflexivity|].
    destruct (template_name t); reflexivity.
  - destruct (component_template node) as [[t|]|] eqn:Et; try congruence.
    destruct (template_name t) as [n|] eqn:En; try congruence.
    destruct (template_class t) as [c|] eqn:Ec; try congruence.
    destruct (parent_component_or_variable_name node) as [parent|] eqn:Ep;
      try congruence.
    intros _. exists t, n, c, parent. auto.
  - intros (t & n & c & parent & -> & -> & -> & ->). simpl. discriminate.
Qed.

(** [detached_scs_node] has a template and no readable parent name; the
    template of [unnamed_scs_node] has no readable name. *)
Lemma component_of_detached_node :
  components_of [detached_scs_node] = [] /\
  components_of [unnamed_scs_node] = [] /\
  components_of [mesh_scs_node] =
    [JDict [("name", JStr "DoorMesh"); ("class", JStr "StaticMeshComponent");
            ("parent", JStr "DefaultSceneRoot")]].
Proof.
  split; [|split].
  - exact (proj1 (proj2 (component_needs_readable_parent detached_scs_node))
             eq_refl).
  - exact (proj1 (proj2 (proj2 (proj2
             (component_needs_readable_parent unnamed_scs_node))))
             _ eq_refl (or_introl eq_refl)).
  - exact (proj1 (component_needs_readable_parent mesh_scs_node)
             _ _ _ _ eq_refl eq_refl eq_refl eq_refl).
Defined.

(** ** The document of a Blueprint *)

Lemma asset_info_before_graphs_run (asset : Blueprint) (n p : string) :
  asset_info_before_graphs asset n p =
  match get_components asset with
  | [] => asset_info_before_components asset n p
  | cs => dict_set "components" (JList cs)
                   (asset_info_before_components asset n p)
  end.
Proof.
  unfold asset_info_before_graphs, asset_info_before_components.
  now rewrite !exec_seq by (intros s; reflexivity).
Qed.

Lemma blueprint_document_extends (asset : Blueprint) (n p : string) :
  extends ("graphs" :: asset_fields) [("name", JStr n); ("path", JStr p)]
    match asset_graphs asset with
    | [] => asset_info_before_graphs asset n p
    | graphs =>
        dict_set "graphs" (JList graphs) (asset_info_before_graphs asset n p)
    end.
Proof.
  assert (H : extends ("graphs" :: asset_fields)
                [("name", JStr n); ("path", JStr p)]
                (asset_info_before_graphs asset n p)).
  { eapply extends_incl; [apply asset_info_before_graphs_extends|].
    intros k Hk. now right. }
  destruct (asset_graphs asset); auto.
  apply ext_set; [exact H | now left].
Qed.

(** X21: [blueprint_to_text] raises in exactly three situations: the asset is
    not a Blueprint and its kind tag cannot be read, or it is a Blueprint
    and its name, or its path name, cannot be read.  The document of a
    Blueprint begins with [name] and [path], holding what was read. *)
Theorem blueprint_to_text_raises_only_on_identity
        (load_asset : string -> option Asset) (asset_path : string) :
  (blueprint_to_text load_asset asset_path = Raise <->
   load_asset asset_path = Some (OtherAsset Raise) \/
   exists asset,
     load_asset asset_path = Some (BlueprintAsset asset) /\
     (bp_get_name asset = Raise \/ bp_get_path_name asset = Raise)) /\
  (forall asset doc,
     load_asset asset_path = Some (BlueprintAsset asset) ->
     blueprint_to_text load_asset asset_path = Ok doc ->
     exists n p rest,
       bp_get_name asset = Ok n /\ bp_get_path_name asset = Ok p /\
       doc = ("name", JStr n) :: ("path", JStr p) :: rest).
Proof.
  split.
  - unfold blueprint_to_text.
    destruct (load_asset asset_path) as [[[c|]|asset]|]; simpl.
    + split; [discriminate|].
      intros [H|(a & H & _)]; discriminate.
    + split; auto.
    + destruct (bp_get_name asset) as [n|] eqn:Hn; simpl.
      * destruct (bp_get_path_name asset) as [p|] eqn:Hp; simpl.
        -- split; [discriminate|].
           intros [H|(a & [= <-] & [H|H])]; congruence.
        -- split; auto. intros _. right. exists asset. auto.
      * split; auto. intros _. right. exists asset. auto.
    + split; [discriminate|].
      intros [H|(a & H & _)]; discriminate.
  - intros asset doc Hl H.
    destruct (blueprint_to_text_inv _ _ _ _ Hl H) as (n & p & Hn & Hp & ->).
    destruct (extends_keeps_head _ _ _ _ _ (blueprint_document_extends asset n p))
      as [rest Hrest]; try (simpl; intuition discriminate).
    exists n, p, rest. auto.
Qed.

(** On [gate_load_asset]: an asset without a readable kind makes the
    call raise, and the gate's document begins with its name and path. *)
Lemma identity_on_gate_directory :
  blueprint_to_text gate_load_asset "/Game/Broken" = Raise /\
  exists doc rest,
    blueprint_to_text gate_load_asset "/Game/BP_Gate" = Ok doc /\
    doc = ("name", JStr "BP_Gate") :: ("path", JStr "/Game/BP_Gate.BP_Gate")
          :: rest.
Proof.
  split.
  - apply (proj1 (blueprint_to_text_raises_only_on_identity
                    gate_load_asset "/Game/Broken")).
    left. reflexivity.
  - eexists.
    destruct (proj2 (blueprint_to_text_raises_only_on_identity
                       gate_load_asset "/Game/BP_Gate")
                gate_blueprint _ eq_refl eq_refl)
      as (n & p & rest & Hn & Hp & Hdoc).
    injection Hn as <-. injection Hp as <-.
    exists rest. split; [reflexivity | exact Hdoc].
Defined.

Lemma blueprint_field (load_asset : string -> option Asset)
      (asset_path : string) (asset : Blueprint) (doc : dict) (k : string) :
  load_asset asset_path = Some (BlueprintAsset asset) ->
  blueprint_to_text load_asset asset_path = Ok doc ->
  k <> "graphs" -> k <> "components" ->
  exists n p,
    dict_get k doc = dict_get k (asset_info_before_components asset n p).
Proof.
  intros Hl H Hg Hc.
  destruct (blueprint_to_text_inv _ _ _ _ Hl H) as (n & p & _ & _ & ->).
  exists n, p.
  assert (E : dict_get k (asset_info_before_graphs asset n p) =
              dict_get k (asset_info_before_components asset n p)).
  { rewrite asset_info_before_graphs_run.
    destruct (get_components asset); auto.
    now rewrite dict_get_set_other. }
  destruct (asset_graphs asset); auto.
  now rewrite dict_get_set_other.
Qed.

(** X22: [generated_class] holds the name of the generated class when both
    read.  [parent_class] is set in the same [try], after it: it holds the
    name of the super class when the class name, the super class and its
    name all read, so a document with [parent_class] always has
    [generated_class], and an unreadable class name hides a readable
    parent. *)
Theorem parent_class_needs_generated_class
        (load_asset : string -> option Asset) (asset_path : string)
        (asset : Blueprint) (doc : dict) :
  load_asset asset_path = Some (BlueprintAsset asset) ->
  blueprint_to_text load_asset asset_path = Ok doc ->
  dict_get "generated_class" doc =
    match generated_class asset with
    | Ok (Some gc) =>
        match class_get_name gc with
        | Ok n => Some (JStr n)
        | Raise => None
        end
    | _ => None
    end /\
  dict_get "parent_class" doc =
    match generated_class asset with
    | Ok (Some gc) =>
        match class_get_name gc, get_super_class gc with
        | Ok _, Ok (Some parent) =>
            match get_name parent with
            | Ok pn => Some (JStr pn)
            | Raise => None
            end
        | _, _ => None
        end
    | _ => None
    end /\
  (dict_get "parent_class" doc <> None ->
   dict_get "generated_class" doc <> None).
Proof.
  intros Hl H.
  assert (Hstage : forall k n p,
             In k ["generated_class"; "parent_class"] ->
             dict_get k (asset_info_before_components asset n p) =
             dict_get k (exec (generated_class_block asset)
                              [("name", JStr n); ("path", JStr p)])).
  { intros k n p Hk. unfold asset_info_before_components.
    rewrite (extends_get _ _ _ k (variables_block_extends asset _))
      by (simpl in *; intuition congruence).
    rewrite (extends_get _ _ _ k (interfaces_block_extends asset _))
      by (simpl in *; intuition congruence).
    rewrite (extends_get _ _ _ k (blueprint_type_block_extends asset _))
      by (simpl in *; intuition congruence).
    reflexivity. }
  destruct (blueprint_field _ _ _ _ "generated_class" Hl H)
    as (n & p & ->); try discriminate.
  destruct (blueprint_field _ _ _ _ "parent_class" Hl H)
    as (n' & p' & ->); try discriminate.
  rewrite !Hstage by (simpl; auto).
  unfold generated_class_block, exec, try_pass, bind, lift, modify, ret.
  destruct (generated_class asset) as [[gc|]|]; simpl;
    try (repeat split; congruence).
  destruct (class_get_name gc) as [cn|]; simpl;
    try (repeat split; congruence).
  destruct (get_super_class gc) as [[parent|]|]; simpl;
    try (repeat split; congruence).
  destruct (get_name parent) as [pn|]; simpl; repeat split; congruence.
Qed.

(** The class fields of the gate's document. *)
Lemma class_fields_of_gate_blueprint :
  exists doc,
    blueprint_to_text gate_load_asset "/Game/BP_Gate" = Ok doc /\
    dict_get "generated_class" doc = Some (JStr "BP_Door_C") /\
    dict_get "parent_class" doc = Some (JStr "Actor").
Proof.
  eexists. split; [reflexivity|].
  destruct (parent_class_needs_generated_class gate_load_asset
              "/Game/BP_Gate" gate_blueprint _ eq_refl eq_refl)
    as (Hg & Hp & _).
  split; [exact Hg | exact Hp].
Defined.

Lemma interface_step_run (iface : Interface) (d : dict) :
  interface_step iface d =
  match interface_name iface with
  | Some n =>
      match dict_append "interfaces" (JStr n) d with
      | Ok d' => (d', Ok tt)
      | Raise => (d, Ok tt)
      end
  | None => (d, Ok tt)
  end.
Proof.
  unfold interface_step, interface_name, try_pass, bind, lift,
    modify_or_raise, ret.
  destruct (iface_interface iface) as [[c|]|]; simpl; auto.
  destruct (get_name c) as [n|]; simpl; auto.
  destruct (dict_append "interfaces" (JStr n) d); reflexivity.
Qed.

Lemma interface_loop_appends (ifaces : list Interface) (d : dict)
      (acc : list json) :
  dict_get "interfaces" d = Some (JList acc) ->
  dict_get "interfaces" (exec (for_each ifaces interface_step) d) =
  Some (JList (acc ++ map JStr (some_only interface_name ifaces))%list).
Proof.
  revert d acc. induction ifaces as [|i rest IH]; intros d acc Hd.
  - simpl. now rewrite app_nil_r.
  - cbn [for_each some_only]. rewrite exec_seq by (intros s; reflexivity).
    unfold exec at 2. rewrite interface_step_run.
    destruct (interface_name i) as [n|]; simpl; [|now apply IH].
    unfold dict_append. rewrite Hd. simpl.
    rewrite (IH _ (acc ++ [JStr n])%list) by apply dict_get_set_same.
    now rewrite <- app_assoc.
Qed.

Lemma interfaces_block_run (asset : Blueprint) (r : dict) :
  exec (interfaces_block asset) r =
  match implemented_interfaces asset with
  | Ok (i :: rest) =>
      exec (for_each (i :: rest) interface_step)
           (dict_set "interfaces" (JList []) r)
  | _ => r
  end.
Proof.
  unfold interfaces_block, exec, try_pass, bind, lift, modify.
  destruct (implemented_interfaces asset) as [[|i rest]|]; reflexivity.
Qed.

(** X23: The [interfaces] field is there exactly when the interface
    collection reads and is not empty; it then lists, in host order, the
    class names of the records that resolve, and only those. *)
Theorem interfaces_list_resolved_names
        (load_asset : string -> option Asset) (asset_path : string)
        (asset : Blueprint) (doc : dict) :
  load_asset asset_path = Some (BlueprintAsset asset) ->
  blueprint_to_text load_asset asset_path = Ok doc ->
  dict_get "interfaces" doc =
  match implemented_interfaces asset with
  | Ok (i :: rest) =>
      Some (JList (map JStr (some_only interface_name (i :: rest))))
  | _ => None
  end.
Proof.
  intros Hl H.
  destruct (blueprint_field _ _ _ _ "interfaces" Hl H) as (n & p & ->);
    try discriminate.
  unfold asset_info_before_components.
  rewrite (extends_get _ _ _ "interfaces" (variables_block_extends asset _))
    by (simpl; intuition discriminate).
  set (r := exec (blueprint_type_block asset) _).
  assert (Hr : dict_get "interfaces" r = None).
  { unfold r.
    rewrite (extends_get _ _ _ "interfaces"
               (blueprint_type_block_extends asset _))
      by (simpl; intuition discriminate).
    rewrite (extends_get _ _ _ "interfaces"
               (generated_class_block_extends asset _))
      by (simpl; intuition discriminate).
    reflexivity. }
  rewrite interfaces_block_run.
  destruct (implemented_interfaces asset) as [[|i rest]|]; auto.
  apply (interface_loop_appends (i :: rest) _ []).
  apply dict_get_set_same.
Qed.

(** The interfaces of the gate: the stale record between the two
    resolvable ones leaves no trace. *)
Lemma interfaces_of_gate_blueprint :
  exists doc,
    blueprint_to_text gate_load_asset "/Game/BP_Gate" = Ok doc /\
    dict_get "interfaces" doc =
      Some (JList [JStr "Openable_C"; JStr "Lockable_C"]).
Proof.
  eexists. split; [reflexivity|].
  exact (interfaces_list_resolved_names gate_load_asset "/Game/BP_Gate"
           gate_blueprint _ eq_refl eq_refl).
Defined.

Lemma graphs_block_prefix (tag : string) (pages : read (list Graph))
      (acc : list json) :
  exec (graphs_block tag pages) acc =
  (acc ++ map (stamp tag) (ok_prefix serialize_graph (graphs_of pages)))%list.
Proof.
  unfold graphs_block, graphs_of, exec, try_pass, bind at 1, lift at 1.
  destruct pages as [gs|]; [|simpl; now rewrite app_nil_r].
  apply (ok_prefix_loop serialize_graph (stamp tag) gs acc).
Qed.

Lemma asset_graphs_prefixes (asset : Blueprint) :
  asset_graphs asset =
  (map (stamp "EventGraph")
       (ok_prefix serialize_graph (graphs_of (ubergraph_pages asset)))
   ++ map (stamp "Function")
       (ok_prefix serialize_graph (graphs_of (function_graphs asset)))
   ++ map (stamp "Macro")
       (ok_prefix serialize_graph (graphs_of (macro_graphs asset))))%list.
Proof.
  unfold asset_graphs. rewrite !exec_seq by (intros s; reflexivity).
  rewrite !graphs_block_prefix. simpl. now rewrite app_assoc.
Qed.

(** X24: Each graph category is walked under its own guard: [graphs] is the
    stamped fragments of the event graphs up to the first one whose
    serialization raises, then the same for the function graphs, then for
    the macro graphs; a failing graph ends its own category only.  The
    field is left out when all three parts are empty. *)
Theorem graph_categories_are_independent
        (load_asset : string -> option Asset) (asset_path : string)
        (asset : Blueprint) (doc : dict) :
  load_asset asset_path = Some (BlueprintAsset asset) ->
  blueprint_to_text load_asset asset_path = Ok doc ->
  dict_get "graphs" doc =
  match
    (map (stamp "EventGraph")
         (ok_prefix serialize_graph (graphs_of (ubergraph_pages asset)))
     ++ map (stamp "Function")
         (ok_prefix serialize_graph (graphs_of (function_graphs asset)))
     ++ map (stamp "Macro")
         (ok_prefix serialize_graph (graphs_of (macro_graphs asset))))%list
  with
  | [] => None
  | graphs => Some (JList graphs)
  end.
Proof.
  intros Hl H.
  destruct (blueprint_to_text_inv _ _ _ _ Hl H) as (n & p & _ & _ & ->).
  rewrite <- asset_graphs_prefixes.
  destruct (asset_graphs asset).
  - apply asset_info_before_graphs_no_graphs.
  - apply dict_get_set_same.
Qed.

(** The graphs of the gate: the nameless function graph hides [Close]
    and nothing of the other categories. *)
Lemma graphs_of_gate_blueprint :
  exists doc evt torn open_ macro,
    blueprint_to_text gate_load_asset "/Game/BP_Gate" = Ok doc /\
    serialize_graph (empty_graph "EventGraph") = Ok evt /\
    serialize_graph torn_graph = Ok torn /\
    serialize_graph (empty_graph "Open") = Ok open_ /\
    serialize_graph untyped_graph = Ok macro /\
    dict_get "graphs" doc =
      Some (JList [stamp "EventGraph" evt; stamp "EventGraph" torn;
                   stamp "Function" open_; stamp "Macro" macro]).
Proof.
  do 5 eexists. repeat (split; [reflexivity|]).
  exact (graph_categories_are_independent gate_load_asset "/Game/BP_Gate"
           gate_blueprint _ eq_refl eq_refl).
Defined.

(** X25: [variables] and [components] are attached only when non-empty:
    [components] is the result of [get_components], [variables] the
    result of [get_property_info] on the generated class, and neither
    field, nor [graphs], ever holds an empty list. *)
Theorem collections_omitted_when_empty
        (load_asset : string -> option Asset) (asset_path : string)
        (asset : Blueprint) (doc : dict) :
  load_asset asset_path = Some (BlueprintAsset asset) ->
  blueprint_to_text load_asset asset_path = Ok doc ->
  dict_get "components" doc =
    match get_components asset with
    | [] => None
    | cs => Some (JList cs)
    end /\
  dict_get "variables" doc =
    match generated_class asset with
    | Ok (Some gc) =>
        match get_property_info gc with
        | [] => None
        | props => Some (JList props)
        end
    | _ => None
    end /\
  (forall k, In k ["variables"; "components"; "graphs"] ->
             dict_get k doc <> Some (JList [])).
Proof.
  intros Hl H.
  assert (Hcomp : dict_get "components" doc =
                  match get_components asset with
                  | [] => None
                  | cs => Some (JList cs)
                  end).
  { destruct (blueprint_to_text_inv _ _ _ _ Hl H) as (n & p & _ & _ & ->).
    assert (E : dict_get "components" (asset_info_before_graphs asset n p) =
                match get_components asset with
                | [] => None
                | cs => Some (JList cs)
                end).
    { rewrite asset_info_before_graphs_run.
      destruct (get_components asset).
      - unfold asset_info_before_components.
        rewrite (extends_get _ _ _ _ (variables_block_extends asset _))
          by (simpl; intuition discriminate).
        rewrite (extends_get _ _ _ _ (interfaces_block_extends asset _))
          by (simpl; intuition discriminate).
        rewrite (extends_get _ _ _ _ (blueprint_type_block_extends asset _))
          by (simpl; intuition discriminate).
        rewrite (extends_get _ _ _ _ (generated_class_block_extends asset _))
          by (simpl; intuition discriminate).
        reflexivity.
      - apply dict_get_set_same. }
    destruct (asset_graphs asset); auto.
    now rewrite dict_get_set_other by discriminate. }
  assert (Hvars : dict_get "variables" doc =
                  match generated_class asset with
                  | Ok (Some gc) =>
                      match get_property_info gc with
                      | [] => None
                      | props => Some (JList props)
                      end
                  | _ => None
                  end).
  { destruct (blueprint_field _ _ _ _ "variables" Hl H) as (n & p & ->);
      try discriminate.
    unfold asset_info_before_components.
    set (r := exec (interfaces_block asset) _).
    assert (Hr : dict_get "variables" r = None).
    { unfold r.
      rewrite (extends_get _ _ _ _ (interfaces_block_extends asset _))
        by (simpl; intuition discriminate).
      rewrite (extends_get _ _ _ _ (blueprint_type_block_extends asset _))
        by (simpl; intuition discriminate).
      rewrite (extends_get _ _ _ _ (generated_class_block_extends asset _))
        by (simpl; intuition discriminate).
      reflexivity. }
    unfold variables_block, exec, try_pass, bind, lift, modify, ret.
    destruct (generated_class asset) as [[gc|]|]; simpl; auto.
    destruct (get_property_info gc); simpl; auto.
    apply dict_get_set_same. }
  split; [exact Hcomp|]. split; [exact Hvars|].
  intros k [<-|[<-|[<-|[]]]].
  - rewrite Hvars. destruct (generated_class asset) as [[gc|]|];
      try discriminate.
    destruct (get_property_info gc); discriminate.
  - rewrite Hcomp. destruct (get_components asset); discriminate.
  - rewrite (graph_categories_are_independent _ _ _ _ Hl H).
    destruct (_ ++ _)%list; discriminate.
Qed.

(** The door has neither variables nor components; the gate has both. *)
Lemma collections_of_door_and_gate :
  (exists doc,
     blueprint_to_text sample_load_asset "/Game/BP_Door" = Ok doc /\
     dict_get "components" doc = None /\
     dict_get "variables" doc = None) /\
  (exists doc,
     blueprint_to_text gate_load_asset "/Game/BP_Gate" = Ok doc /\
     dict_get "components" doc = Some (JList (get_components gate_blueprint)) /\
     dict_get "variables" doc = Some (JList (get_property_info sample_class))).
Proof.
  split.
  - eexists. split; [reflexivity|].
    destruct (collections_omitted_when_empty sample_load_asset
                "/Game/BP_Door" (door_blueprint [stale_interface]) _
                eq_refl eq_refl) as (Hc & Hv & _).
    split; [exact Hc | exact Hv].
  - eexists. split; [reflexivity|].
    destruct (collections_omitted_when_empty gate_load_asset
                "/Game/BP_Gate" gate_blueprint _ eq_refl eq_refl)
      as (Hc & Hv & _).
    split; [exact Hc | exact Hv].
Defined.
